(** * ObsiRandom: the note selector and its callers (main.ts)

    A shallow embedding of the plugin class [ObsiRandomPlugin] of
    [main.ts].  The plugin runs inside a host (Obsidian); every method
    reads or writes host state: the vault's files, the arrays the host
    hands out, the clock, the random source, the command registry, the
    settings object and the notices shown to the user.  The methods are
    therefore written in a state-and-exception monad over a [World]
    record that holds exactly this state. *)

From Stdlib Require Import ZArith NArith String Ascii Lia List.
From stdpp Require Import base option list gmap sorting.

Local Open Scope Z_scope.

(** ** JavaScript strings

    A JavaScript string is a sequence of UTF-16 code units.  [lit]
    embeds the ASCII literals of the source. *)

Abbreviation jsstring := (list N).

Fixpoint lit (s : string) : jsstring :=
  match s with
  | EmptyString => []
  | String c s' => N_of_ascii c :: lit s'
  end.

(** [String.prototype.startsWith] with the default position 0: the code
    units of [p] are compared one by one with the first units of [s]. *)
Fixpoint startsWith (s p : jsstring) {struct p} : bool :=
  match p, s with
  | [], _ => true
  | _ :: _, [] => false
  | c :: p', d :: s' => (d =? c)%N && startsWith s' p'
  end.

(** ECMAScript [WhiteSpace] and [LineTerminator] code points, the ones
    [String.prototype.trim] strips: TAB, VT, FF, ZWNBSP, the space
    separators (category Zs), LF, CR, LS and PS. *)
Definition isWhiteSpace (c : N) : bool :=
  ((c =? 9) || (c =? 10) || (c =? 11) || (c =? 12) || (c =? 13) ||
   (c =? 32) || (c =? 160) || (c =? 5760) ||
   ((8192 <=? c) && (c <=? 8202)) ||
   (c =? 8232) || (c =? 8233) || (c =? 8239) || (c =? 8287) ||
   (c =? 12288) || (c =? 65279))%N.

Fixpoint trimStart (s : jsstring) : jsstring :=
  match s with
  | [] => []
  | c :: s' => if isWhiteSpace c then trimStart s' else s
  end.

Definition trimEnd (s : jsstring) : jsstring := rev (trimStart (rev s)).

Definition trim (s : jsstring) : jsstring := trimEnd (trimStart s).

(** Truthiness of a string: every string but the empty one. *)
Definition truthy (s : jsstring) : bool :=
  match s with [] => false | _ :: _ => true end.

(** ** Numbers

    Timestamps, day counts and array lengths are integers far below
    2^53, where JavaScript's Number arithmetic is exact: they are
    modelled in [Z].  [Math.random()] is the one genuinely fractional
    Number of the program; it is modelled as a non-negative finite
    binary64 value [mant * 2 ^ expo]. *)

Record float64 := Float { mant : Z; expo : Z }.

Definition prec : Z := 53.
Definition emin : Z := -1074.
Definition emax : Z := 971.

Definition is_binary64 (x : float64) : Prop :=
  0 <= mant x < 2 ^ prec /\ emin <= expo x <= emax.

(** [x < 1], for a value [mant x * 2 ^ expo x] with [0 <= mant x]. *)
Definition below_one (x : float64) : Prop := mant x < 2 ^ (- expo x).

(** An integer-valued Number; exact below 2^53. *)
Definition of_int (n : Z) : float64 := Float n 0.

(** Rounding of the exact value [m * 2 ^ e] ([0 <= m]) to binary64:
    round to nearest, ties to even, with gradual underflow.  The
    products of this program stay below 2^32, so overflow to Infinity
    is not part of the model. *)
Definition round_nearest_even (m e : Z) : float64 :=
  let s := Z.max (Z.log2 m + 1 - prec) (emin - e) in
  if s <=? 0 then Float m e
  else
    let q := m / 2 ^ s in
    let r := m mod 2 ^ s in
    let half := 2 ^ (s - 1) in
    if (half <? r) || ((r =? half) && Z.odd q)
    then Float (q + 1) (e + s)
    else Float q (e + s).

(** The [*] of two Numbers: the exact product, rounded. *)
Definition float_mul (x y : float64) : float64 :=
  round_nearest_even (mant x * mant y) (expo x + expo y).

(** [Math.floor] of a non-negative finite Number. *)
Definition Math_floor (x : float64) : Z :=
  if 0 <=? expo x then mant x * 2 ^ expo x else mant x / 2 ^ (- expo x).

(** ** Data of the plugin *)

(** References to heap objects ([TFile] objects and arrays). *)
Abbreviation loc := positive.

(** The fields of the host's [TFile] that the plugin reads;
    [ctime] is [file.stat.ctime], in milliseconds. *)
Record TFile := { path : jsstring; basename : jsstring; ctime : Z }.

Record ObsiRandomSettings := {
  customDirectory1 : jsstring;
  customDirectory2 : jsstring;
  customDirectory3 : jsstring
}.

Definition DEFAULT_SETTINGS : ObsiRandomSettings :=
  {| customDirectory1 := lit ""; customDirectory2 := lit "";
     customDirectory3 := lit "" |}.

(** [TIME_PERIODS] *)
Definition WEEK : Z := 7.
Definition MONTH : Z := 30.
Definition YEAR : Z := 365.

Definition MILLISECONDS_PER_DAY : Z := 24 * 60 * 60 * 1000.

(** The type [1 | 2 | 3] of directory numbers. *)
Inductive slot := Slot1 | Slot2 | Slot3.

Definition all_slots : list slot := [Slot1; Slot2; Slot3].

(** [`${num}`] *)
Definition slot_text (num : slot) : jsstring :=
  match num with
  | Slot1 => lit "1"
  | Slot2 => lit "2"
  | Slot3 => lit "3"
  end.

(** [settings[`customDirectory${num}`]] *)
Definition customDirectory (num : slot) (s : ObsiRandomSettings) : jsstring :=
  match num with
  | Slot1 => customDirectory1 s
  | Slot2 => customDirectory2 s
  | Slot3 => customDirectory3 s
  end.

(** [settings[`customDirectory${num}`] = value] *)
Definition set_customDirectory (num : slot) (value : jsstring)
    (s : ObsiRandomSettings) : ObsiRandomSettings :=
  match num with
  | Slot1 => {| customDirectory1 := value;
                customDirectory2 := customDirectory2 s;
                customDirectory3 := customDirectory3 s |}
  | Slot2 => {| customDirectory1 := customDirectory1 s;
                customDirectory2 := value;
                customDirectory3 := customDirectory3 s |}
  | Slot3 => {| customDirectory1 := customDirectory1 s;
                customDirectory2 := customDirectory2 s;
                customDirectory3 := value |}
  end.

(** The callbacks the plugin registers, by the method they call. *)
Inductive callback :=
  | CallVault | CallRecent | CallMonth | CallYear
  | CallCustomDirectory (num : slot).

Record Command := {
  cmd_id : jsstring;
  cmd_name : jsstring;
  cmd_callback : callback
}.

(** What the plugin asks of the host, in the order it asks. *)
Inductive event :=
  | EvGetMarkdownFiles
  | EvNotice (message : jsstring)
  | EvOpenFile (file : loc)
  | EvConsoleError (message : jsstring)
  | EvSaveData (data : ObsiRandomSettings).

(** A value of type [TFile | null], plus [undefined], which an array
    read past the end yields. *)
Inductive note_or_null :=
  | Null
  | Undefined
  | Note (file : loc).

(** ** The world *)

Record World := {
  files : gmap loc TFile;            (* the TFile objects *)
  arrays : gmap loc (list loc);      (* the arrays of TFile references *)
  markdownFiles : loc;               (* what vault.getMarkdownFiles() returns *)
  clock : Z;                         (* Date.now() *)
  random_source : nat -> float64;    (* successive values of Math.random() *)
  random_calls : nat;
  openFile_rejects : loc -> bool;    (* does openFile(file) reject? *)
  saveData_rejects : bool;           (* does saveData(...) reject? *)
  manifest_id : jsstring;            (* this.manifest.id *)
  manifest_name : jsstring;          (* this.manifest.name *)
  settings : ObsiRandomSettings;     (* this.settings *)
  commands : gmap jsstring Command;  (* app.commands.commands *)
  events : list event                (* host calls so far, oldest first *)
}.

Definition with_arrays (v : gmap loc (list loc)) (w : World) : World :=
  {| files := files w; arrays := v; markdownFiles := markdownFiles w;
     clock := clock w; random_source := random_source w;
     random_calls := random_calls w;
     openFile_rejects := openFile_rejects w;
     saveData_rejects := saveData_rejects w;
     manifest_id := manifest_id w; manifest_name := manifest_name w;
     settings := settings w;
     commands := commands w; events := events w |}.

Definition with_random_calls (v : nat) (w : World) : World :=
  {| files := files w; arrays := arrays w; markdownFiles := markdownFiles w;
     clock := clock w; random_source := random_source w;
     random_calls := v;
     openFile_rejects := openFile_rejects w;
     saveData_rejects := saveData_rejects w;
     manifest_id := manifest_id w; manifest_name := manifest_name w;
     settings := settings w;
     commands := commands w; events := events w |}.

Definition with_settings (v : ObsiRandomSettings) (w : World) : World :=
  {| files := files w; arrays := arrays w; markdownFiles := markdownFiles w;
     clock := clock w; random_source := random_source w;
     random_calls := random_calls w;
     openFile_rejects := openFile_rejects w;
     saveData_rejects := saveData_rejects w;
     manifest_id := manifest_id w; manifest_name := manifest_name w;
     settings := v;
     commands := commands w; events := events w |}.

Definition with_commands (v : gmap jsstring Command) (w : World) : World :=
  {| files := files w; arrays := arrays w; markdownFiles := markdownFiles w;
     clock := clock w; random_source := random_source w;
     random_calls := random_calls w;
     openFile_rejects := openFile_rejects w;
     saveData_rejects := saveData_rejects w;
     manifest_id := manifest_id w; manifest_name := manifest_name w;
     settings := settings w;
     commands := v; events := events w |}.

Definition with_events (v : list event) (w : World) : World :=
  {| files := files w; arrays := arrays w; markdownFiles := markdownFiles w;
     clock := clock w; random_source := random_source w;
     random_calls := random_calls w;
     openFile_rejects := openFile_rejects w;
     saveData_rejects := saveData_rejects w;
     manifest_id := manifest_id w; manifest_name := manifest_name w;
     settings := settings w;
     commands := commands w; events := v |}.

(** ** The monad: state, and exceptions that keep the state *)

Inductive exn :=
  | HostRejected   (* a promise of the host was rejected *)
  | BadReference.  (* a reference with no object behind it *)

Inductive outcome (A : Type) :=
  | Ret (a : A)
  | Throw (e : exn).
Arguments Ret {A} a.
Arguments Throw {A} e.

Definition M (A : Type) : Type := World -> outcome A * World.

Definition M_ret {A} (a : A) : M A := fun w => (Ret a, w).

Definition M_bind {A B} (k : A -> M B) (m : M A) : M B :=
  fun w =>
    match m w with
    | (Ret a, w') => k a w'
    | (Throw e, w') => (Throw e, w')
    end.

#[export] Instance M_mret : MRet M := @M_ret.
#[export] Instance M_mbind : MBind M := @M_bind.

Definition throw {A} (e : exn) : M A := fun w => (Throw e, w).

(** Reading and writing a component of the world. *)
Definition gets {A} (f : World -> A) : M A := fun w => (Ret (f w), w).

Definition modify (f : World -> World) : M unit := fun w => (Ret tt, f w).

(** [try { body } catch (error) { handler }] *)
Definition try_catch {A} (body : M A) (handler : exn -> M A) : M A :=
  fun w =>
    match body w with
    | (Ret a, w') => (Ret a, w')
    | (Throw e, w') => handler e w'
    end.

Definition emit (e : event) : M unit :=
  modify (fun w => with_events (events w ++ [e]) w).

(** ** The host and the JavaScript built-ins the plugin calls *)

(** [this.app.vault.getMarkdownFiles()] *)
Definition getMarkdownFiles : M loc :=
  _ ← emit EvGetMarkdownFiles;
  gets markdownFiles.

(** [Date.now()] *)
Definition Date_now : M Z := gets clock.

(** [Math.random()] *)
Definition Math_random : M float64 :=
  r ← gets (fun w => random_source w (random_calls w));
  _ ← modify (fun w => with_random_calls (S (random_calls w)) w);
  mret r.

(** [new Notice(message)] *)
Definition Notice (message : jsstring) : M unit := emit (EvNotice message).

(** [console.error(message, error)] *)
Definition console_error (message : jsstring) : M unit :=
  emit (EvConsoleError message).

(** [await this.app.workspace.getLeaf().openFile(file)] *)
Definition openFile (file : loc) : M unit :=
  _ ← emit (EvOpenFile file);
  rejected ← gets (fun w => openFile_rejects w file);
  if rejected : bool then throw HostRejected else mret tt.

(** [await this.saveData(data)] *)
Definition saveData (data : ObsiRandomSettings) : M unit :=
  _ ← emit (EvSaveData data);
  rejected ← gets saveData_rejects;
  if rejected : bool then throw HostRejected else mret tt.

(** Reading a field of a [TFile]. *)
Definition read_file {A} (field : TFile -> A) (file : loc) : M A :=
  o ← gets (fun w => files w !! file);
  match o with
  | Some f => mret (field f)
  | None => throw BadReference
  end.

Definition read_array (a : loc) : M (list loc) :=
  o ← gets (fun w => arrays w !! a);
  match o with
  | Some xs => mret xs
  | None => throw BadReference
  end.

(** A new array object, at a reference not in use. *)
Definition new_array (xs : list loc) : M loc :=
  a ← gets (fun w => fresh (dom (arrays w)));
  _ ← modify (fun w => with_arrays (<[a := xs]> (arrays w)) w);
  mret a.

(** [a.length] *)
Definition Array_length (a : loc) : M Z :=
  xs ← read_array a; mret (Z.of_nat (length xs)).

(** [a[i]], for an integer-valued [i] *)
Definition Array_get (a : loc) (i : Z) : M note_or_null :=
  xs ← read_array a;
  mret (if i <? 0 then Undefined
        else match xs !! Z.to_nat i with
             | Some file => Note file
             | None => Undefined
             end).

Fixpoint filter_loop (keep : loc -> M bool) (xs : list loc) : M (list loc) :=
  match xs with
  | [] => mret []
  | x :: xs' =>
      b ← keep x;
      kept ← filter_loop keep xs';
      mret (if b : bool then x :: kept else kept)
  end.

(** [a.filter(keep)]: the elements are visited in index order and the
    kept ones are put, in that order, into a new array. *)
Definition Array_filter (a : loc) (keep : loc -> M bool) : M loc :=
  xs ← read_array a;
  kept ← filter_loop keep xs;
  new_array kept.

(** [this.app.commands.commands[commandId]], as a truth value. *)
Definition has_command (commandId : jsstring) : M bool :=
  gets (fun w => bool_decide (is_Some (commands w !! commandId))).

(** [this.app.commands.removeCommand(commandId)] *)
Definition removeCommand (commandId : jsstring) : M unit :=
  modify (fun w => with_commands (delete commandId (commands w)) w).

(** [this.addCommand(command)]: the host registers the command under
    the plugin's manifest id, a colon and the command's own id, and
    under the plugin's name, a colon, a space and the command's own
    name. *)
Definition addCommand (command : Command) : M unit :=
  id ← gets manifest_id;
  name ← gets manifest_name;
  let fullId := id ++ lit ":" ++ cmd_id command in
  modify (fun w =>
    with_commands
      (<[fullId := {| cmd_id := fullId;
                      cmd_name := name ++ lit ": " ++ cmd_name command;
                      cmd_callback := cmd_callback command |}]> (commands w))
      w).

(** [list.forEach(body)] *)
Fixpoint forEach {A} (xs : list A) (body : A -> M unit) : M unit :=
  match xs with
  | [] => mret tt
  | x :: xs' => _ ← body x; forEach xs' body
  end.

(** ** The plugin: class [ObsiRandomPlugin] *)

Definition getAllNotes : M loc := getMarkdownFiles.

Definition getNotesFromPastDays (days : Z) : M loc :=
  now ← Date_now;
  let cutoffTime := now - days * MILLISECONDS_PER_DAY in
  markdownFiles ← getMarkdownFiles;
  Array_filter markdownFiles
    (fun file => c ← read_file ctime file; mret (c >=? cutoffTime)).

Definition getNotesFromPastWeek : M loc := getNotesFromPastDays WEEK.

Definition getNotesFromPastMonth : M loc := getNotesFromPastDays MONTH.

Definition getNotesFromPastYear : M loc := getNotesFromPastDays YEAR.

Definition getNotesFromDirectory (directoryPath : jsstring) : M loc :=
  markdownFiles ← getMarkdownFiles;
  Array_filter markdownFiles
    (fun file => p ← read_file path file; mret (startsWith p directoryPath)).

Definition getRandomNote (notes : loc) : M note_or_null :=
  len ← Array_length notes;
  if len =? 0 then mret Null
  else
    r ← Math_random;
    let randomIndex := Math_floor (float_mul r (of_int len)) in
    Array_get notes randomIndex.

Definition openRandomNote (notes : loc) (context : jsstring) : M unit :=
  len ← Array_length notes;
  if len =? 0 then Notice (lit "No notes found " ++ context ++ lit "!")
  else
    randomNote ← getRandomNote notes;
    match randomNote with
    | Note file =>
        try_catch
          (_ ← openFile file;
           name ← read_file basename file;
           Notice (lit "Opened random note: " ++ name))
          (fun error =>
             _ ← console_error (lit "ObsiRandom: Failed to open note:");
             name ← read_file basename file;
             Notice (lit "Failed to open note: " ++ name))
    | Null | Undefined => mret tt
    end.

Definition executeRandomNoteCommand (getNotes : M loc) (context : jsstring)
    : M unit :=
  notes ← getNotes;
  openRandomNote notes context.

Definition openRandomNoteFromVault : M unit :=
  executeRandomNoteCommand getAllNotes (lit "in the vault").

Definition openRandomRecentNote : M unit :=
  executeRandomNoteCommand getNotesFromPastWeek (lit "from the past 7 days").

Definition openRandomNoteFromMonth : M unit :=
  executeRandomNoteCommand getNotesFromPastMonth (lit "from the past month").

Definition openRandomNoteFromYear : M unit :=
  executeRandomNoteCommand getNotesFromPastYear (lit "from the past year").

Definition openRandomNoteFromCustomDirectory (directoryNumber : slot)
    : M unit :=
  s ← gets settings;
  let directoryPath := customDirectory directoryNumber s in
  if negb (truthy (trim directoryPath)) then
    Notice (lit "Please set Custom Directory " ++ slot_text directoryNumber
            ++ lit " in plugin settings first!")
  else
    customNotes ← getNotesFromDirectory directoryPath;
    openRandomNote customNotes
      (lit "in " ++ directoryPath ++ lit " directory").

Definition saveSettings : M unit :=
  s ← gets settings;
  saveData s.

Definition removeCustomCommands : M unit :=
  forEach all_slots (fun num =>
    id ← gets manifest_id;
    let commandId :=
      id ++ lit ":open-random-custom-directory-" ++ slot_text num in
    present ← has_command commandId;
    if present : bool then removeCommand commandId else mret tt).

Definition addCustomCommands : M unit :=
  forEach all_slots (fun num =>
    s ← gets settings;
    let directoryPath := customDirectory num s in
    if truthy (trim directoryPath) then
      addCommand
        {| cmd_id := lit "open-random-custom-directory-" ++ slot_text num;
           cmd_name := lit "Random note from " ++ directoryPath;
           cmd_callback := CallCustomDirectory num |}
    else mret tt).

Definition updateCommands : M unit :=
  _ ← removeCustomCommands;
  addCustomCommands.

(** ** The settings tab: class [ObsiRandomSettingTab] *)

(** The [onChange] handler that [createDirectorySetting] installs on the
    dropdown and on the text field of directory [num]. *)
Definition onChange (num : slot) (value : jsstring) : M unit :=
  _ ← modify (fun w =>
        with_settings (set_customDirectory num value (settings w)) w);
  _ ← saveSettings;
  updateCommands.

(** ** Vocabulary of the statements *)

(** A Number in [0, 1): what [Math.random()] is specified to return. *)
Definition unit_interval (x : float64) : Prop := is_binary64 x /\ below_one x.

(** The vault lists the notes [xs]: the array that [getMarkdownFiles]
    returns holds [xs], and every element is a [TFile]. *)
Definition vault_lists (w : World) (xs : list loc) : Prop :=
  arrays w !! markdownFiles w = Some xs /\
  forall x, x ∈ xs -> is_Some (files w !! x).

(** [file.stat.ctime >= cutoffTime], read in world [w]. *)
Definition created_since (w : World) (cutoffTime : Z) (file : loc) : bool :=
  match files w !! file with
  | Some f => ctime f >=? cutoffTime
  | None => false
  end.

(** [file.path.startsWith(directoryPath)], read in world [w]. *)
Definition under_directory (w : World) (directoryPath : jsstring) (file : loc)
    : bool :=
  match files w !! file with
  | Some f => startsWith (path f) directoryPath
  | None => false
  end.

(** Operation [m], run in [w] where the vault lists [xs], returns a
    reference to an array that holds exactly the notes of [xs] whose
    [TFile] satisfies [P]. *)
Definition keeps_exactly (w : World) (m : M loc) (xs : list loc)
    (P : TFile -> Prop) : Prop :=
  exists a kept w',
    m w = (Ret a, w') /\
    arrays w' !! a = Some kept /\
    forall file,
      file ∈ kept <->
      file ∈ xs /\ exists f, files w !! file = Some f /\ P f.

(** Operation [m], run in [w], returns a reference to an array whose
    elements are a subsequence of [xs]: same relative order, and every
    kept note as many times as [xs] has it. *)
Definition keeps_order (w : World) (m : M loc) (xs : list loc) : Prop :=
  exists a kept w',
    m w = (Ret a, w') /\
    arrays w' !! a = Some kept /\
    kept `sublist_of` xs /\
    forall file,
      file ∈ kept ->
      count_occ Pos.eq_dec kept file = count_occ Pos.eq_dec xs file.

(** The elements of the array an operation returned. *)
Definition array_of (r : outcome loc * World) : option (list loc) :=
  match r with
  | (Ret a, w') => arrays w' !! a
  | (Throw _, _) => None
  end.

(** The notice that asks the user to configure directory [num]. *)
Definition configuration_prompt (num : slot) : jsstring :=
  lit "Please set Custom Directory " ++ slot_text num
  ++ lit " in plugin settings first!".

(** World [w] after one more notice, and nothing else. *)
Definition after_notice (message : jsstring) (w : World) : World :=
  with_events (events w ++ [EvNotice message]) w.

(** The identifier under which the command of directory [num] is
    registered. *)
Definition custom_command_id (w : World) (num : slot) : jsstring :=
  manifest_id w ++ lit ":open-random-custom-directory-" ++ slot_text num.

(** The command of directory [num], as the registry holds it. *)
Definition custom_command (w : World) (num : slot) : Command :=
  {| cmd_id := custom_command_id w num;
     cmd_name :=
       manifest_name w ++ lit ": " ++
       lit "Random note from " ++ customDirectory num (settings w);
     cmd_callback := CallCustomDirectory num |}.

Definition registered (w : World) (num : slot) : Prop :=
  is_Some (commands w !! custom_command_id w num).

(** Directory [num] is configured: its string is not empty once
    trimmed. *)
Definition configured (w : World) (num : slot) : Prop :=
  trim (customDirectory num (settings w)) <> [].

(** The registry [m] with the command of directory [num] put in, when
    that directory is configured. *)
Definition put_command (w : World) (num : slot) (m : gmap jsstring Command)
    : gmap jsstring Command :=
  if truthy (trim (customDirectory num (settings w)))
  then <[custom_command_id w num := custom_command w num]> m
  else m.

(** The registry after [updateCommands]: the three identifiers are
    removed, then the configured ones are put back. *)
Definition updated_commands (w : World) : gmap jsstring Command :=
  put_command w Slot3 (put_command w Slot2 (put_command w Slot1
    (delete (custom_command_id w Slot3)
       (delete (custom_command_id w Slot2)
          (delete (custom_command_id w Slot1) (commands w)))))).

(** The heap of [w'] is that of [w]: the same [TFile] objects and the
    same arrays, each with the same elements. *)
Definition heap_kept (w w' : World) : Prop :=
  files w' = files w /\ arrays w' = arrays w.

(** The heap of [w'] is that of [w] with new arrays at most: the same
    [TFile] objects, and every array of [w] still there with the same
    elements. *)
Definition heap_preserved (w w' : World) : Prop :=
  files w' = files w /\ arrays w ⊆ arrays w'.

(** A returned array is a new object: no array of [w] has its
    reference. *)
Definition fresh_array (w : World) (r : outcome loc) : Prop :=
  match r with
  | Ret a => arrays w !! a = None
  | Throw _ => True
  end.

(** An operation that neither writes nor allocates on the heap. *)
Definition reads_only {A} (m : M A) : Prop :=
  forall w, heap_kept w (snd (m w)).

(** An operation whose only effect on the heap is to allocate the array
    it returns. *)
Definition allocates_result (m : M loc) : Prop :=
  forall w, heap_preserved w (snd (m w)) /\ fresh_array w (fst (m w)).

(** ** A small vault, for the examples

    Four notes, an empty array besides the vault's listing, and a
    random source stuck at the largest Number below one.  One note was
    created exactly seven days before [example_now], one a millisecond
    earlier. *)

Definition example_now : Z := 1700000000000.

Definition example_files : gmap loc TFile :=
  <[1%positive := {| path := lit "Projects/a.md"; basename := lit "a";
                     ctime := example_now - 604800000 |}]>
  (<[2%positive := {| path := lit "ProjectsArchive/b.md"; basename := lit "b";
                      ctime := example_now - 604800001 |}]>
  (<[3%positive := {| path := lit "A/x.md"; basename := lit "x";
                      ctime := example_now |}]>
  (<[4%positive := {| path := lit "B/y.md"; basename := lit "y";
                      ctime := example_now - 1000 * 86400000 |}]> ∅))).

Definition example_notes : list loc := [1; 2; 3; 4]%positive.

Definition example_world : World :=
  {| files := example_files;
     arrays := <[10%positive := example_notes]> (<[11%positive := []]> ∅);
     markdownFiles := 10%positive;
     clock := example_now;
     random_source := fun _ => Float (2 ^ 53 - 1) (-53);
     random_calls := 0;
     openFile_rejects := fun _ => false;
     saveData_rejects := false;
     manifest_id := lit "obsirandom";
     manifest_name := lit "ObsiRandom";
     settings := {| customDirectory1 := lit "Projects";
                    customDirectory2 := lit "  ";
                    customDirectory3 := lit "" |};
     commands := ∅;
     events := [] |}.

(** The same world, with a host that rejects every [openFile]. *)
Definition example_world_rejecting : World :=
  {| files := files example_world; arrays := arrays example_world;
     markdownFiles := markdownFiles example_world;
     clock := clock example_world;
     random_source := random_source example_world;
     random_calls := random_calls example_world;
     openFile_rejects := fun _ => true;
     saveData_rejects := saveData_rejects example_world;
     manifest_id := manifest_id example_world;
     manifest_name := manifest_name example_world;
     settings := settings example_world;
     commands := commands example_world;
     events := events example_world |}.

(** ** The cutoff in the Number arithmetic of the code

    [getNotesFromPastDays] above computes line 38 in exact integers.
    The code computes it in binary64: the product and the difference
    are each rounded to the nearest Number.  The definitions below
    follow the code, and the two agree wherever the product and the
    difference are below 2^53 in magnitude. *)

(** The Number nearest to the integer [z]: its magnitude rounded to
    53 bits, ties to even.  Integers near 2^1024, where a Number
    overflows, are not part of the model. *)
Definition Number_round (z : Z) : Z :=
  let x := round_nearest_even (Z.abs z) 0 in
  Z.sgn z * (mant x * 2 ^ expo x).

(** [a * b] and [a - b] of integer-valued Numbers. *)
Definition Number_mul (a b : Z) : Z := Number_round (a * b).

Definition Number_sub (a b : Z) : Z := Number_round (a - b).

(** [getNotesFromPastDays], with the cutoff as the code computes it. *)
Definition getNotesFromPastDays_binary64 (days : Z) : M loc :=
  now ← Date_now;
  let cutoffTime := Number_sub now (Number_mul days MILLISECONDS_PER_DAY) in
  markdownFiles ← getMarkdownFiles;
  Array_filter markdownFiles
    (fun file => c ← read_file ctime file; mret (c >=? cutoffTime)).


(** ** The rest of the plugin class *)

(** The stored settings: an object that has some of the three fields,
    each a string, as [saveData] was given them.  Stored data with a
    field that is no string is not covered: the settings, here as in
    the interface [ObsiRandomSettings], hold strings only. *)
Record StoredData := {
  saved1 : option jsstring;
  saved2 : option jsstring;
  saved3 : option jsstring
}.

(** [Object.assign({}, defaults, data)]: every field that [data] has
    replaces the default; [null] assigns nothing. *)
Definition Object_assign (defaults : ObsiRandomSettings)
    (data : option StoredData) : ObsiRandomSettings :=
  match data with
  | None => defaults
  | Some d =>
      {| customDirectory1 := default (customDirectory1 defaults) (saved1 d);
         customDirectory2 := default (customDirectory2 defaults) (saved2 d);
         customDirectory3 := default (customDirectory3 defaults) (saved3 d) |}
  end.

(** How [await this.loadData()] ends: the host rejects, or it resolves
    to [null] or to the stored settings. *)
Inductive LoadResult :=
  | LoadRejected
  | LoadResolved (data : option StoredData).

(** Data alone stands for a load that resolved to it. *)
#[warning="-uniform-inheritance"]
Coercion LoadResolved : option >-> LoadResult.

(** [loadSettings], with [loaded] how [await this.loadData()] ended. *)
Definition loadSettings (loaded : LoadResult) : M unit :=
  match loaded with
  | LoadRejected => throw HostRejected
  | LoadResolved data =>
      modify (with_settings (Object_assign DEFAULT_SETTINGS data))
  end.

Definition builtInCommands : list Command :=
  [ {| cmd_id := lit "open-random-note";
       cmd_name := lit "Random note from vault";
       cmd_callback := CallVault |};
    {| cmd_id := lit "open-random-recent-note";
       cmd_name := lit "Random note from past 7 days";
       cmd_callback := CallRecent |};
    {| cmd_id := lit "open-random-month-note";
       cmd_name := lit "Random note from past month";
       cmd_callback := CallMonth |};
    {| cmd_id := lit "open-random-year-note";
       cmd_name := lit "Random note from past year";
       cmd_callback := CallYear |} ].

(** [onload]; the settings tab that it adds last is an object of the
    host's user interface and no part of the world. *)
Definition onload (loaded : LoadResult) : M unit :=
  _ ← loadSettings loaded;
  _ ← forEach builtInCommands addCommand;
  updateCommands.

Definition onunload : M unit := mret tt.

(** What the host runs when the user invokes a command. *)
Definition run_callback (c : callback) : M unit :=
  match c with
  | CallVault => openRandomNoteFromVault
  | CallRecent => openRandomRecentNote
  | CallMonth => openRandomNoteFromMonth
  | CallYear => openRandomNoteFromYear
  | CallCustomDirectory num => openRandomNoteFromCustomDirectory num
  end.

(** ** Vocabulary of the further statements *)

(** Array [a] of [w] holds the notes [xs], each a [TFile]. *)
Definition holds_notes (w : World) (a : loc) (xs : list loc) : Prop :=
  arrays w !! a = Some xs /\
  forall x, x ∈ xs -> is_Some (files w !! x).

(** The index that the next [Math.random()] of [w] selects among [n]
    candidates. *)
Definition random_index (w : World) (n : nat) : nat :=
  Z.to_nat (Math_floor (float_mul (random_source w (random_calls w))
                          (of_int (Z.of_nat n)))).

(** The host calls of an attempt to open [file], named [name]. *)
Definition open_report (rejected : bool) (file : loc) (name : jsstring)
    : list event :=
  EvOpenFile file ::
  if rejected
  then [EvConsoleError (lit "ObsiRandom: Failed to open note:");
        EvNotice (lit "Failed to open note: " ++ name)]
  else [EvNotice (lit "Opened random note: " ++ name)].

(** A command that listed the vault in [w] and ended in [w'] did, for
    the candidates [kept], what it should: with no candidate, one
    notice that names the [context]; otherwise one attempt to open a
    candidate. *)
Definition command_reports (w w' : World) (context : jsstring)
    (kept : list loc) : Prop :=
  match kept with
  | [] =>
      events w' = events w ++
        [EvGetMarkdownFiles;
         EvNotice (lit "No notes found " ++ context ++ lit "!")]
  | _ :: _ =>
      exists file f,
        file ∈ kept /\ files w !! file = Some f /\
        events w' = events w ++
          EvGetMarkdownFiles ::
          open_report (openFile_rejects w file) file (basename f)
  end.

(** The identifier under which a built-in command is registered. *)
Definition builtin_command_id (w : World) (c : Command) : jsstring :=
  manifest_id w ++ lit ":" ++ cmd_id c.

(** Everything of the world but the heap's new arrays, the log and the
    count of random numbers is as it was: the [TFile] objects, the
    arrays that existed, the settings and the registry. *)
Definition plugin_state_kept (w w' : World) : Prop :=
  files w' = files w /\ arrays w ⊆ arrays w' /\
  settings w' = settings w /\ commands w' = commands w /\
  manifest_id w' = manifest_id w /\ markdownFiles w' = markdownFiles w /\
  clock w' = clock w /\ manifest_name w' = manifest_name w.

(** A setting is blank: empty, or white space only. *)
Definition blank (s : jsstring) : Prop := forallb isWhiteSpace s = true.

(** Command [m], run in [w] where the vault lists [xs], returns; its
    candidates are exactly the notes of [xs] whose [TFile] satisfies
    [P], and it reports on them under the name [context]. *)
Definition command_selects (w : World) (m : M unit) (context : jsstring)
    (xs : list loc) (P : TFile -> Prop) : Prop :=
  exists kept w',
    m w = (Ret tt, w') /\
    (forall file,
       file ∈ kept <->
       file ∈ xs /\ exists f, files w !! file = Some f /\ P f) /\
    command_reports w w' context kept.

(** An operation that, however it ends, keeps the plugin's state. *)
Definition keeps_plugin_state {A} (m : M A) : Prop :=
  forall w, plugin_state_kept w (snd (m w)).

(** A built-in command as the registry holds it. *)
Definition builtin_command (w : World) (c : Command) : Command :=
  {| cmd_id := builtin_command_id w c;
     cmd_name := manifest_name w ++ lit ": " ++ cmd_name c;
     cmd_callback := cmd_callback c |}.

(** The example world, with a host that rejects every [saveData]. *)
Definition example_world_unsaved : World :=
  {| files := files example_world; arrays := arrays example_world;
     markdownFiles := markdownFiles example_world;
     clock := clock example_world;
     random_source := random_source example_world;
     random_calls := random_calls example_world;
     openFile_rejects := openFile_rejects example_world;
     saveData_rejects := true;
     manifest_id := manifest_id example_world;
     manifest_name := manifest_name example_world;
     settings := settings example_world;
     commands := commands example_world;
     events := events example_world |}.

(** ** The settings tab: the directories of the vault *)

(** The code unit of "/". *)
Definition slash : N := 47.

(** [s.includes(c)], for a search string of the one code unit [c]. *)
Definition includes (s : jsstring) (c : N) : bool := existsb (N.eqb c) s.

(** [s.split(sep)], for a separator of the one code unit [sep]: the
    pieces between the separators, at least one piece. *)
Fixpoint split (s : jsstring) (sep : N) : list jsstring :=
  match s with
  | [] => [[]]
  | c :: s' =>
      if (c =? sep)%N then [] :: split s' sep
      else match split s' sep with
           | part :: parts => (c :: part) :: parts
           | [] => [[c]]
           end
  end.

(** [parts.join(sep)] *)
Fixpoint join (parts : list jsstring) (sep : jsstring) : jsstring :=
  match parts with
  | [] => []
  | part :: parts' =>
      match parts' with
      | [] => part
      | _ :: _ => part ++ sep ++ join parts' sep
      end
  end.

(** A [Set] of strings, in insertion order; [set.add(x)]. *)
Definition Set_add (x : jsstring) (set : list jsstring) : list jsstring :=
  if bool_decide (x ∈ set) then set else set ++ [x].

(** [s < t] on strings: by code units, a proper prefix first. *)
Fixpoint string_lt (s t : jsstring) : bool :=
  match s, t with
  | _, [] => false
  | [], _ :: _ => true
  | c :: s', d :: t' => (c <? d)%N || ((c =? d)%N && string_lt s' t')
  end.

Fixpoint insert_sorted (x : jsstring) (l : list jsstring) : list jsstring :=
  match l with
  | [] => [x]
  | y :: l' => if string_lt y x then y :: insert_sorted x l' else x :: l
  end.

(** [Array.from(set).sort()]: with no comparison function the strings
    are ordered by [string_lt].  On distinct strings, as the elements
    of a set are, the order of the result does not depend on the
    sorting algorithm; insertion is used here. *)
Definition Array_sort (l : list jsstring) : list jsstring :=
  foldr insert_sorted [] l.

(** The body of the [forEach] of [getAllDirectories], for a file at
    [path]: every prefix of the path that ends before a "/" joins the
    set, unless it is empty. *)
Definition add_directories (folders : list jsstring) (path : jsstring)
    : list jsstring :=
  if includes path slash then
    let pathParts := split path slash in
    foldl
      (fun folders i =>
         let dirPath := join (take i pathParts) [slash] in
         if truthy dirPath then Set_add dirPath folders else folders)
      folders
      (seq 1 (length pathParts - 1))
  else folders.

(** [getAllDirectories], with [loaded] the paths of the files that
    [this.app.vault.getAllLoadedFiles()] returned, in their order. *)
Definition getAllDirectories (loaded : list jsstring) : list jsstring :=
  Array_sort (foldl add_directories [] loaded).

(** [d] is a directory of [path]: the path is [d], a "/", and more. *)
Definition directory_of (d path : jsstring) : Prop :=
  exists rest, path = d ++ slash :: rest.

(** ** The settings tab: what [display] builds

    The elements that [display] creates in its container, as a tree.
    A control of a setting row remembers the slot whose [onChange]
    handler it calls. *)

Inductive Control :=
  | Dropdown (options : list (jsstring * jsstring)) (value : jsstring)
             (handler : slot)
  | TextField (placeholder value : jsstring) (handler : slot).

(** A child made by [createEl(tag, { text })]. *)
Record Item := { item_tag : jsstring; item_text : jsstring }.

Inductive Element :=
  | El (tag : jsstring) (text cls : option jsstring) (children : list Item)
  | SettingRow (name desc : jsstring) (controls : list Control).

(** [createDirectorySetting(containerEl, num, directories)]: the row
    it adds, under the settings [s]. *)
Definition createDirectorySetting (s : ObsiRandomSettings) (num : slot)
    (directories : list jsstring) : Element :=
  SettingRow
    (lit "Custom Directory " ++ slot_text num)
    (lit "Select or enter directory path " ++ slot_text num)
    [ Dropdown
        ((lit "", lit "-- Select a directory --")
         :: map (fun dir => (dir, dir)) directories)
        (customDirectory num s) num;
      TextField (lit "Or type custom path") (customDirectory num s) num ].

(** [display()]: the children of the emptied container, with [loaded]
    the paths of the files that the host lists. *)
Definition display (loaded : list jsstring) : M (list Element) :=
  s ← gets settings;
  let description := Some (lit "setting-item-description") in
  let builtInCommands :=
    [ lit "Random note from vault";
      lit "Random note from past 7 days";
      lit "Random note from past month";
      lit "Random note from past year" ] in
  let commandList :=
    map (fun command => {| item_tag := lit "li"; item_text := command |})
        builtInCommands
    ++ flat_map
         (fun num =>
            let directoryPath := customDirectory num s in
            if truthy (trim directoryPath)
            then [{| item_tag := lit "li";
                     item_text := lit "Random note from " ++ directoryPath |}]
            else [])
         all_slots in
  let directories := getAllDirectories loaded in
  mret
    ([ El (lit "h2") (Some (lit "ObsiRandom Settings")) None [];
       El (lit "p")
          (Some (lit "Configure custom directories to quickly access random notes from specific folders in your vault."))
          description [];
       El (lit "h3") (Some (lit "Available Commands")) None [];
       El (lit "p")
          (Some (lit "Use the command palette (Ctrl/Cmd + P) to access these commands:"))
          description [];
       El (lit "ul") None description commandList;
       El (lit "hr") None description [];
       El (lit "h3") (Some (lit "Custom Directories")) None [] ]
     ++ map (fun num => createDirectorySetting s num directories) all_slots).

(** The texts of the items of the lists among [elements]. *)
Definition listed_items (elements : list Element) : list jsstring :=
  flat_map
    (fun el =>
       match el with
       | El tag _ _ children =>
           if bool_decide (tag = lit "ul") then map item_text children
           else []
       | SettingRow _ _ _ => []
       end)
    elements.

(** The commands that the settings tab shows in world [w]. *)
Definition shown_commands (w : World) (loaded : list jsstring)
    : list jsstring :=
  match fst (display loaded w) with
  | Ret elements => listed_items elements
  | Throw _ => []
  end.

(** The registry agrees with the settings: the four built-in commands
    are registered, and the command of a slot is registered, with the
    slot's directory in its name, exactly when the slot is
    configured. *)
Definition in_sync (w : World) : Prop :=
  (forall c,
     c ∈ builtInCommands ->
     commands w !! builtin_command_id w c = Some (builtin_command w c)) /\
  (forall num,
     commands w !! custom_command_id w num
     = if truthy (trim (customDirectory num (settings w)))
       then Some (custom_command w num)
       else None).

(** [c] is a command that the registry holds under one of the
    plugin's identifiers. *)
Definition plugin_command (w : World) (c : Command) : Prop :=
  (exists b, b ∈ builtInCommands /\
             commands w !! builtin_command_id w b = Some c) \/
  (exists num, commands w !! custom_command_id w num = Some c).

(** The data that the host keeps of the settings [s] given to
    [saveData]: an object with the three fields. *)
Definition as_stored (s : ObsiRandomSettings) : StoredData :=
  {| saved1 := Some (customDirectory1 s);
     saved2 := Some (customDirectory2 s);
     saved3 := Some (customDirectory3 s) |}.

(** The example world once the plugin is loaded, with nothing stored. *)
Definition example_world_loaded : World := snd (onload None example_world).


(** * Properties *)

(** ** Numbers *)

(** A Number whose value, scaled by [2 ^ t], is below [n * 2 ^ t] has
    its floor below [n]. *)
Lemma floor_below (q e t n : Z) :
  0 < t -> 0 <= q -> 0 < n ->
  (0 <= e + t) ->
  q * 2 ^ (e + t) < n * 2 ^ t ->
  0 <= Math_floor (Float q e) < n.
Proof.
  intros Ht Hq Hn Het Hlt. unfold Math_floor; simpl.
  assert (HT : 0 < 2 ^ t) by (apply Z.pow_pos_nonneg; lia).
  destruct (Z.leb_spec 0 e) as [He|He].
  - assert (HE : 0 < 2 ^ e) by (apply Z.pow_pos_nonneg; lia).
    rewrite Z.pow_add_r in Hlt by lia. split; [nia|nia].
  - assert (HE : 0 < 2 ^ (- e)) by (apply Z.pow_pos_nonneg; lia).
    assert (HS : 0 < 2 ^ (e + t)) by (apply Z.pow_pos_nonneg; lia).
    assert (Hsplit : 2 ^ t = 2 ^ (e + t) * 2 ^ (- e)).
    { rewrite <- Z.pow_add_r by lia. f_equal. lia. }
    split.
    + apply Z.div_pos; lia.
    + apply Z.div_lt_upper_bound; [lia|]. nia.
Qed.

(** For a binary64 [r] in [0, 1) and a positive integer [n], the
    rounded product [r * n] stays below [n]: its floor is an index. *)
Lemma random_index_in_range (r : float64) (n : Z) :
  is_binary64 r -> below_one r -> 0 < n ->
  0 <= Math_floor (float_mul r (of_int n)) < n.
Proof.
  destruct r as [m e]. unfold is_binary64, below_one, float_mul, of_int.
  cbn [mant expo]. unfold prec, emin, emax. intros [[Hm0 Hm] [He1 He2]] Hlt Hn.
  rewrite Z.add_0_r.
  destruct (Z.eq_dec m 0) as [->|Hmz].
  { unfold round_nearest_even, prec, emin. rewrite Z.mul_0_l.
    change (Z.log2 0 + 1 - 53) with (-52).
    destruct (Z.leb_spec (Z.max (-52) (-1074 - e)) 0) as [_|Hs]; [|lia].
    unfold Math_floor; cbn [mant expo]. destruct (Z.leb_spec 0 e).
    - rewrite Z.mul_0_l. lia.
    - rewrite Z.div_0_l; [lia|]. apply Z.pow_nonzero; lia. }
  assert (He : e < 0).
  { destruct (Z_lt_le_dec e 0) as [|Hge]; [assumption|].
    destruct (Z.eq_dec e 0) as [->|]; [change (2 ^ (- 0)) with 1 in Hlt; lia|].
    rewrite Z.pow_neg_r in Hlt by lia. lia. }
  set (t := - e) in *.
  assert (Ht : 0 < t) by (unfold t; lia).
  assert (HT : 0 < 2 ^ t) by (apply Z.pow_pos_nonneg; lia).
  assert (Hmn : 0 < m * n) by nia.
  unfold round_nearest_even, prec, emin.
  set (d := Z.log2 (m * n) + 1).
  destruct (Z.log2_spec (m * n) Hmn) as [Hlo Hhi].
  replace (Z.succ (Z.log2 (m * n))) with d in Hhi by (unfold d; lia).
  assert (Hd : 0 < d) by (unfold d; pose proof (Z.log2_nonneg (m * n)); lia).
  destruct (Z.leb_spec (Z.max (d - 53) (-1074 - e)) 0) as [Hs|Hs].
  - apply (floor_below _ _ t); try lia.
    replace (e + t) with 0 by (unfold t; lia). rewrite Z.pow_0_r. nia.
  - replace (Z.max (d - 53) (-1074 - e)) with (d - 53) in * by lia.
    set (s := d - 53) in *.
    assert (HP : 0 < 2 ^ (s - 1)) by (apply Z.pow_pos_nonneg; lia).
    assert (HS : 2 ^ s = 2 * 2 ^ (s - 1)).
    { replace s with (1 + (s - 1)) at 1 by lia.
      rewrite Z.pow_add_r by lia. reflexivity. }
    assert (Hlog : 2 ^ Z.log2 (m * n) = 2 ^ 52 * 2 ^ s).
    { rewrite <- Z.pow_add_r by lia. f_equal. unfold s, d. lia. }
    pose proof (Z.div_mod (m * n) (2 ^ s) ltac:(lia)) as Hdm.
    pose proof (Z.mod_pos_bound (m * n) (2 ^ s) ltac:(lia)) as Hrb.
    set (q := m * n / 2 ^ s) in *. set (rm := (m * n) mod 2 ^ s) in *.
    change (2 ^ 53) with 9007199254740992 in *.
    change (2 ^ 52) with 4503599627370496 in *.
    assert (Hq : 4503599627370496 <= q) by nia.
    assert (Hval : forall q', 0 <= q' -> q' * 2 ^ s < n * 2 ^ t ->
               0 <= Math_floor (Float q' (e + s)) < n).
    { intros q' Hq' Hv. apply (floor_below _ _ t); try lia.
      replace (e + s + t) with s by (unfold t; lia). exact Hv. }
    destruct ((2 ^ (s - 1) <? rm) || ((rm =? 2 ^ (s - 1)) && Z.odd q))
      eqn:Hup.
    + apply Hval; [lia|].
      assert (Hhalf : 2 ^ (s - 1) <= rm).
      { apply orb_prop in Hup. destruct Hup as [H|H].
        - apply Z.ltb_lt in H. lia.
        - apply andb_prop in H. destruct H as [H _].
          apply Z.eqb_eq in H. lia. }
      clear Hup Hval.
      destruct (Z_lt_le_dec ((q + 1) * 2 ^ s) (n * 2 ^ t)) as [|Hge];
        [assumption | exfalso].
      assert (H1 : m * n <= n * 2 ^ t - n) by nia.
      assert (H2 : n <= 2 ^ (s - 1)) by nia.
      assert (H3 : m * n < 9007199254740992 * n) by nia.
      assert (H4 : 4503599627370496 * 2 ^ s <= m * n) by nia.
      nia.
    + apply Hval; [lia|]. nia.
Qed.

(** ** Strings *)

Lemma startsWith_prefix (s p : jsstring) :
  startsWith s p = true <-> exists rest, s = p ++ rest.
Proof.
  revert s. induction p as [|c p IH]; intros s; cbn [startsWith].
  - split; [intros _; exists s; reflexivity | reflexivity].
  - destruct s as [|d s].
    + split; [discriminate | intros [rest H]; discriminate H].
    + rewrite andb_true_iff, N.eqb_eq, IH. split.
      * intros [-> [rest ->]]. exists rest. reflexivity.
      * intros [rest H]. injection H as -> ->. eauto.
Qed.

Lemma trimStart_blank (s : jsstring) :
  forallb isWhiteSpace s = true -> trimStart s = [].
Proof.
  induction s as [|c s IH]; cbn [forallb trimStart]; [reflexivity|].
  intros H. apply andb_true_iff in H as [-> H]. auto.
Qed.

Lemma trim_blank (s : jsstring) :
  forallb isWhiteSpace s = true -> trim s = [].
Proof. intros H. unfold trim. rewrite trimStart_blank by exact H. reflexivity. Qed.

Lemma truthy_nonempty (s : jsstring) : truthy s = true <-> s <> [].
Proof. destruct s; cbn [truthy]; split; congruence. Qed.

(** ** Running the monad *)

Lemma bind_ret {A B} (m : M A) (k : A -> M B) w a w' :
  m w = (Ret a, w') -> (m ≫= k) w = k a w'.
Proof. intros H. unfold mbind, M_mbind, M_bind. rewrite H. reflexivity. Qed.

(** One step of a run: the first operation of a sequence returns. *)
Tactic Notation "step" "by" tactic(t) := erewrite bind_ret by t.

Lemma read_array_ret a w xs :
  arrays w !! a = Some xs -> read_array a w = (Ret xs, w).
Proof.
  intros H. unfold read_array. step by reflexivity.
  cbv beta. rewrite H. reflexivity.
Qed.

Lemma read_file_ret {A} (field : TFile -> A) file w f :
  files w !! file = Some f -> read_file field file w = (Ret (field f), w).
Proof.
  intros H. unfold read_file. step by reflexivity.
  cbv beta. rewrite H. reflexivity.
Qed.

(** A callback that only reads, and answers [p], makes the loop of
    [filter] compute the pure filter. *)
Lemma filter_loop_ret (keep : loc -> M bool) (p : loc -> bool) w xs :
  (forall x, x ∈ xs -> keep x w = (Ret (p x), w)) ->
  filter_loop keep xs w = (Ret (filter (fun x => p x = true) xs), w).
Proof.
  induction xs as [|x xs IH]; intros Hk; cbn [filter_loop]; [reflexivity|].
  step by (apply Hk; left).
  step by (apply IH; intros y Hy; apply Hk; right; exact Hy).
  rewrite filter_cons. destruct (p x); reflexivity.
Qed.

Lemma new_array_ret xs w :
  new_array xs w =
    (Ret (fresh (dom (arrays w))),
     with_arrays (<[fresh (dom (arrays w)) := xs]> (arrays w)) w).
Proof. reflexivity. Qed.

Lemma fresh_array_unused w : arrays w !! fresh (dom (arrays w)) = None.
Proof. apply not_elem_of_dom, is_fresh. Qed.

Lemma Array_filter_ret a keep (p : loc -> bool) w xs :
  arrays w !! a = Some xs ->
  (forall x, x ∈ xs -> keep x w = (Ret (p x), w)) ->
  Array_filter a keep w =
    (Ret (fresh (dom (arrays w))),
     with_arrays
       (<[fresh (dom (arrays w)) := filter (fun x => p x = true) xs]> (arrays w))
       w).
Proof.
  intros Ha Hk. unfold Array_filter.
  step by (apply read_array_ret; exact Ha).
  step by (apply filter_loop_ret; exact Hk).
  apply new_array_ret.
Qed.

Lemma getMarkdownFiles_ret w :
  getMarkdownFiles w =
    (Ret (markdownFiles w), with_events (events w ++ [EvGetMarkdownFiles]) w).
Proof. reflexivity. Qed.

Lemma getNotesFromPastDays_ret w days xs :
  vault_lists w xs ->
  getNotesFromPastDays days w =
    (Ret (fresh (dom (arrays w))),
     with_arrays
       (<[fresh (dom (arrays w)) :=
            filter
              (fun x =>
                 created_since w (clock w - days * MILLISECONDS_PER_DAY) x
                 = true)
              xs]>
          (arrays w))
       (with_events (events w ++ [EvGetMarkdownFiles]) w)).
Proof.
  intros [Ha Hf]. unfold getNotesFromPastDays.
  step by reflexivity.
  step by apply getMarkdownFiles_ret.
  erewrite Array_filter_ret; [reflexivity | exact Ha |].
  intros x Hx. destruct (Hf x Hx) as [f Hxf].
  step by (apply read_file_ret; exact Hxf).
  unfold created_since. rewrite Hxf. reflexivity.
Qed.

Lemma getNotesFromDirectory_ret w directoryPath xs :
  vault_lists w xs ->
  getNotesFromDirectory directoryPath w =
    (Ret (fresh (dom (arrays w))),
     with_arrays
       (<[fresh (dom (arrays w)) :=
            filter (fun x => under_directory w directoryPath x = true) xs]>
          (arrays w))
       (with_events (events w ++ [EvGetMarkdownFiles]) w)).
Proof.
  intros [Ha Hf]. unfold getNotesFromDirectory.
  step by apply getMarkdownFiles_ret.
  erewrite Array_filter_ret; [reflexivity | exact Ha |].
  intros x Hx. destruct (Hf x Hx) as [f Hxf].
  step by (apply read_file_ret; exact Hxf).
  unfold under_directory. rewrite Hxf. reflexivity.
Qed.

(** ** Lists *)

Lemma count_occ_filter (p : loc -> bool) (xs : list loc) (x : loc) :
  p x = true ->
  count_occ Pos.eq_dec (filter (fun y => p y = true) xs) x
  = count_occ Pos.eq_dec xs x.
Proof.
  intros Hp. induction xs as [|y xs IH]; [reflexivity|].
  rewrite filter_cons. destruct (decide (p y = true)) as [Hy|Hy].
  - cbn [count_occ]. destruct (Pos.eq_dec y x); congruence.
  - cbn [count_occ]. destruct (Pos.eq_dec y x); congruence.
Qed.

Lemma example_vault : vault_lists example_world example_notes.
Proof.
  split; [reflexivity|].
  apply Forall_forall.
  repeat (constructor; [eexists; reflexivity|]). constructor.
Qed.

(** ** The filters *)

Lemma filter_keeps_exactly (w w' : World) (p : loc -> bool) (xs : list loc)
    (P : TFile -> Prop) (m : M loc) (a : loc) :
  m w = (Ret a, w') ->
  arrays w' !! a = Some (filter (fun x => p x = true) xs) ->
  (forall file, p file = true <-> exists f, files w !! file = Some f /\ P f) ->
  keeps_exactly w m xs P.
Proof.
  intros Hm Ha Hp. exists a, (filter (fun x => p x = true) xs), w'.
  split; [exact Hm|]. split; [exact Ha|].
  intros file. rewrite list_elem_of_filter, Hp. tauto.
Qed.

Lemma filter_keeps_order (w w' : World) (p : loc -> bool) (xs : list loc)
    (m : M loc) (a : loc) :
  m w = (Ret a, w') ->
  arrays w' !! a = Some (filter (fun x => p x = true) xs) ->
  keeps_order w m xs.
Proof.
  intros Hm Ha. exists a, (filter (fun x => p x = true) xs), w'.
  split; [exact Hm|]. split; [exact Ha|]. split.
  - apply sublist_filter.
  - intros file Hfile. apply list_elem_of_filter in Hfile as [Hp _].
    apply count_occ_filter. exact Hp.
Qed.

Lemma created_since_spec w cutoffTime file :
  created_since w cutoffTime file = true <->
  exists f, files w !! file = Some f /\ ctime f >= cutoffTime.
Proof.
  unfold created_since. destruct (files w !! file) as [f|].
  - rewrite Z.geb_le. split.
    + intros H. exists f. split; [reflexivity | lia].
    + intros [f' [[= <-] H]]. lia.
  - split; [discriminate | intros [f [[=] _]]].
Qed.

Lemma under_directory_spec w directoryPath file :
  under_directory w directoryPath file = true <->
  exists f, files w !! file = Some f /\
            exists rest, path f = directoryPath ++ rest.
Proof.
  unfold under_directory. destruct (files w !! file) as [f|].
  - rewrite startsWith_prefix. split.
    + intros H. exists f. split; [reflexivity | exact H].
    + intros [f' [[= <-] H]]. exact H.
  - split; [discriminate | intros [f [[=] _]]].
Qed.

Lemma getNotesFromPastDays_keeps w days xs :
  vault_lists w xs ->
  keeps_exactly w (getNotesFromPastDays days) xs
    (fun f => ctime f >= clock w - days * 86400000).
Proof.
  intros Hv. eapply filter_keeps_exactly.
  - apply getNotesFromPastDays_ret. exact Hv.
  - cbn [arrays with_arrays]. apply lookup_insert_eq.
  - intros file. apply created_since_spec.
Qed.

(** Below 2^53 every integer is a Number. *)
Lemma Number_round_safe (z : Z) : Z.abs z < 2 ^ 53 -> Number_round z = z.
Proof.
  intros Hz. unfold Number_round, round_nearest_even, prec, emin.
  destruct (Z.eq_dec z 0) as [->|Hz0]; [reflexivity|].
  assert (Hlog : Z.log2 (Z.abs z) < 53)
    by (apply Z.log2_lt_pow2; lia).
  destruct (Z.leb_spec (Z.max (Z.log2 (Z.abs z) + 1 - 53) (-1074 - 0)) 0)
    as [_|Hs]; [|lia].
  cbn [mant expo]. rewrite Z.pow_0_r. lia.
Qed.

(** Where the product and the difference are below 2^53, the cutoff of
    the code is the exact one. *)
Lemma getNotesFromPastDays_binary64_exact w days :
  Z.abs (days * 86400000) < 2 ^ 53 ->
  Z.abs (clock w - days * 86400000) < 2 ^ 53 ->
  getNotesFromPastDays_binary64 days w = getNotesFromPastDays days w.
Proof.
  intros Hp Hd. unfold getNotesFromPastDays_binary64, getNotesFromPastDays.
  rewrite !(bind_ret Date_now _ w (clock w) w eq_refl). cbv zeta.
  unfold Number_sub, Number_mul.
  change MILLISECONDS_PER_DAY with 86400000.
  rewrite (Number_round_safe (days * 86400000)) by exact Hp.
  rewrite (Number_round_safe (clock w - days * 86400000)) by exact Hd.
  reflexivity.
Qed.




(** ** The random pick *)

Lemma Array_length_ret a w xs :
  arrays w !! a = Some xs ->
  Array_length a w = (Ret (Z.of_nat (length xs)), w).
Proof.
  intros H. unfold Array_length.
  step by (apply read_array_ret; exact H). reflexivity.
Qed.

Lemma Array_get_ret a i w xs :
  arrays w !! a = Some xs ->
  Array_get a i w =
    (Ret (if i <? 0 then Undefined
          else match xs !! Z.to_nat i with
               | Some file => Note file
               | None => Undefined
               end), w).
Proof.
  intros H. unfold Array_get.
  step by (apply read_array_ret; exact H). reflexivity.
Qed.

Lemma getRandomNote_empty w notes :
  arrays w !! notes = Some [] -> getRandomNote notes w = (Ret Null, w).
Proof.
  intros H. unfold getRandomNote.
  step by (apply Array_length_ret; exact H). reflexivity.
Qed.

Lemma getRandomNote_nonempty w notes xs :
  arrays w !! notes = Some xs -> xs <> [] ->
  getRandomNote notes w =
    (Ret (let i := Math_floor (float_mul (random_source w (random_calls w))
                                 (of_int (Z.of_nat (length xs)))) in
          if i <? 0 then Undefined
          else match xs !! Z.to_nat i with
               | Some file => Note file
               | None => Undefined
               end),
     with_random_calls (S (random_calls w)) w).
Proof.
  intros H Hne. unfold getRandomNote.
  step by (apply Array_length_ret; exact H).
  destruct (Z.eqb_spec (Z.of_nat (length xs)) 0) as [H0|_].
  { destruct xs; [congruence | cbn [length] in H0; lia]. }
  step by reflexivity.
  erewrite Array_get_ret by exact H. reflexivity.
Qed.

(** C1: from a non-empty array, with [Math.random()] in [0, 1), the
    pick is the element at some index of that very array. *)
Theorem getRandomNote_member (w : World) (notes : loc) (xs : list loc) :
  arrays w !! notes = Some xs ->
  xs <> [] ->
  unit_interval (random_source w (random_calls w)) ->
  exists (i : nat) (file : loc),
    xs !! i = Some file /\
    file ∈ xs /\
    fst (getRandomNote notes w) = Ret (Note file).
Proof.
  intros H Hne [Hb Hu].
  rewrite (getRandomNote_nonempty w notes xs H Hne). cbn [fst].
  assert (Hlen : 0 < Z.of_nat (length xs)).
  { destruct xs; [congruence | cbn [length]; lia]. }
  pose proof (random_index_in_range _ _ Hb Hu Hlen) as Hi.
  set (i := Math_floor _) in *. cbv zeta.
  destruct (Z.ltb_spec i 0) as [|_]; [lia|].
  destruct (lookup_lt_is_Some_2 xs (Z.to_nat i)) as [file Hfile]; [lia|].
  exists (Z.to_nat i), file. rewrite Hfile.
  split; [reflexivity|]. split; [|reflexivity].
  apply list_elem_of_lookup. exists (Z.to_nat i). exact Hfile.
Qed.

Lemma getRandomNote_member_witness :
  exists (i : nat) (file : loc),
    example_notes !! i = Some file /\
    file ∈ example_notes /\
    fst (getRandomNote 10%positive example_world) = Ret (Note file).
Proof.
  apply (getRandomNote_member example_world 10%positive example_notes).
  - reflexivity.
  - discriminate.
  - unfold unit_interval, is_binary64, below_one. vm_compute.
    repeat split; congruence.
Defined.

(** C2: on the empty array the pick is [null]; on every array it
    returns, and never throws. *)
Theorem getRandomNote_total (w : World) (notes : loc) (xs : list loc) :
  arrays w !! notes = Some xs ->
  (xs = [] -> getRandomNote notes w = (Ret Null, w)) /\
  exists v w', getRandomNote notes w = (Ret v, w').
Proof.
  intros H. split.
  - intros ->. apply getRandomNote_empty. exact H.
  - destruct xs as [|x xs].
    + eexists _, _. apply getRandomNote_empty. exact H.
    + eexists _, _. apply (getRandomNote_nonempty w notes (x :: xs) H).
      discriminate.
Qed.

Lemma getRandomNote_total_witness :
  getRandomNote 11%positive example_world = (Ret Null, example_world).
Proof.
  apply (getRandomNote_total example_world 11%positive []); reflexivity.
Defined.

Lemma getNotesFromDirectory_keeps w directoryPath xs :
  vault_lists w xs ->
  keeps_exactly w (getNotesFromDirectory directoryPath) xs
    (fun f => exists rest, path f = directoryPath ++ rest).
Proof.
  intros Hv. eapply filter_keeps_exactly.
  - apply getNotesFromDirectory_ret. exact Hv.
  - cbn [arrays with_arrays]. apply lookup_insert_eq.
  - intros file. apply under_directory_spec.
Qed.

(** C4: filtering by a directory keeps exactly the notes whose path is
    the given string followed by anything: the prefix "Projects" keeps
    "Projects/a.md" and "ProjectsArchive/b.md" alike, while a prefix
    in another case or with a trailing slash is a different prefix. *)
Theorem getNotesFromDirectory_literal_prefix
    (w : World) (directoryPath : jsstring) (xs : list loc) :
  vault_lists w xs ->
  keeps_exactly w (getNotesFromDirectory directoryPath) xs
    (fun f => exists rest, path f = directoryPath ++ rest) /\
  array_of (getNotesFromDirectory (lit "Projects") example_world)
    = Some [1; 2]%positive /\
  array_of (getNotesFromDirectory (lit "projects") example_world)
    = Some [] /\
  array_of (getNotesFromDirectory (lit "Projects/") example_world)
    = Some [1]%positive.
Proof.
  intros Hv. split; [apply getNotesFromDirectory_keeps; exact Hv|].
  split; [|split]; vm_compute; reflexivity.
Qed.

Lemma getNotesFromDirectory_literal_prefix_witness :
  keeps_exactly example_world (getNotesFromDirectory (lit "Projects"))
    example_notes
    (fun f => exists rest, path f = lit "Projects" ++ rest).
Proof.
  apply (getNotesFromDirectory_literal_prefix
           example_world (lit "Projects") example_notes).
  exact example_vault.
Defined.

(** C9: both filters return the kept notes in the order of the input,
    each as many times as the input has it. *)
Theorem filters_keep_order (w : World) (xs : list loc) :
  vault_lists w xs ->
  (forall days, keeps_order w (getNotesFromPastDays days) xs) /\
  (forall directoryPath,
     keeps_order w (getNotesFromDirectory directoryPath) xs).
Proof.
  intros Hv. split.
  - intros days. eapply filter_keeps_order.
    + apply getNotesFromPastDays_ret. exact Hv.
    + cbn [arrays with_arrays]. apply lookup_insert_eq.
  - intros directoryPath. eapply filter_keeps_order.
    + apply getNotesFromDirectory_ret. exact Hv.
    + cbn [arrays with_arrays]. apply lookup_insert_eq.
Qed.

Lemma filters_keep_order_witness :
  keeps_order example_world (getNotesFromPastDays 7) example_notes.
Proof.
  apply (filters_keep_order example_world example_notes example_vault).
Defined.

(** C10: the week, month and year windows are 7, 30 and 365 days of
    86_400_000 ms: the past-month and past-year commands filter with
    the cutoffs [now - 30 * 86_400_000] and [now - 365 * 86_400_000]. *)
Theorem recency_windows (w : World) (xs : list loc) :
  vault_lists w xs ->
  keeps_exactly w getNotesFromPastWeek xs
    (fun f => ctime f >= clock w - 7 * 86400000) /\
  keeps_exactly w getNotesFromPastMonth xs
    (fun f => ctime f >= clock w - 30 * 86400000) /\
  keeps_exactly w getNotesFromPastYear xs
    (fun f => ctime f >= clock w - 365 * 86400000) /\
  openRandomRecentNote =
    executeRandomNoteCommand getNotesFromPastWeek (lit "from the past 7 days") /\
  openRandomNoteFromMonth =
    executeRandomNoteCommand getNotesFromPastMonth (lit "from the past month") /\
  openRandomNoteFromYear =
    executeRandomNoteCommand getNotesFromPastYear (lit "from the past year").
Proof.
  intros Hv. repeat split; try reflexivity.
  - apply (getNotesFromPastDays_keeps w WEEK xs Hv).
  - apply (getNotesFromPastDays_keeps w MONTH xs Hv).
  - apply (getNotesFromPastDays_keeps w YEAR xs Hv).
Qed.

Lemma recency_windows_witness :
  keeps_exactly example_world getNotesFromPastMonth example_notes
    (fun f => ctime f >= clock example_world - 30 * 86400000).
Proof.
  apply (recency_windows example_world example_notes example_vault).
Defined.

(** ** The callers *)

(** C5: when the configured directory of a slot is empty or only
    whitespace, the slot's action shows the configuration prompt, a
    notice unlike every other notice of the plugin, and does nothing
    else: no listing of the vault, no filter, no random pick and no
    attempt to open a note. *)
Theorem unconfigured_directory_prompts (w : World) (num : slot) :
  forallb isWhiteSpace (customDirectory num (settings w)) = true ->
  openRandomNoteFromCustomDirectory num w
    = (Ret tt, after_notice (configuration_prompt num) w) /\
  (forall context,
     configuration_prompt num <> lit "No notes found " ++ context ++ lit "!") /\
  (forall name,
     configuration_prompt num <> lit "Opened random note: " ++ name) /\
  (forall name,
     configuration_prompt num <> lit "Failed to open note: " ++ name).
Proof.
  intros Hblank. split; [|repeat split; intros ?; discriminate].
  unfold openRandomNoteFromCustomDirectory.
  step by reflexivity. cbv zeta.
  rewrite (trim_blank _ Hblank). reflexivity.
Qed.

Lemma unconfigured_directory_prompts_witness :
  openRandomNoteFromCustomDirectory Slot2 example_world
    = (Ret tt, after_notice (configuration_prompt Slot2) example_world).
Proof.
  apply (unconfigured_directory_prompts example_world Slot2).
  reflexivity.
Defined.

(** C6: on an empty candidate array, [openRandomNote] shows the notice
    "No notes found <context>!", with the context as given, and does
    nothing else; in particular it opens no note. *)
Theorem openRandomNote_empty (w : World) (notes : loc) (context : jsstring) :
  arrays w !! notes = Some [] ->
  openRandomNote notes context w
    = (Ret tt,
       after_notice (lit "No notes found " ++ context ++ lit "!") w).
Proof.
  intros H. unfold openRandomNote.
  step by (apply Array_length_ret; exact H). reflexivity.
Qed.

Lemma openRandomNote_empty_witness :
  openRandomNote 11%positive (lit "in the vault") example_world
    = (Ret tt,
       after_notice (lit "No notes found in the vault!") example_world).
Proof.
  apply (openRandomNote_empty example_world 11%positive (lit "in the vault")).
  reflexivity.
Defined.

(** ** The command registry *)

Section Registry.
Variable w : World.

Lemma custom_command_id_inj num1 num2 :
  custom_command_id w num1 = custom_command_id w num2 -> num1 = num2.
Proof.
  unfold custom_command_id. intros H.
  apply app_inv_head in H. apply app_inv_head in H.
  destruct num1, num2; first [reflexivity | discriminate H].
Qed.

Lemma custom_command_id_ne num1 num2 :
  num1 <> num2 -> custom_command_id w num1 <> custom_command_id w num2.
Proof. intros Hne H. apply Hne, custom_command_id_inj, H. Qed.

(** After [updateCommands], the identifier of a slot maps to the
    slot's command when the slot is configured, and to nothing
    otherwise. *)
Lemma updated_commands_custom num :
  updated_commands w !! custom_command_id w num
  = if truthy (trim (customDirectory num (settings w)))
    then Some (custom_command w num)
    else None.
Proof.
  unfold updated_commands, put_command.
  assert (H12 := custom_command_id_ne Slot1 Slot2 ltac:(discriminate)).
  assert (H13 := custom_command_id_ne Slot1 Slot3 ltac:(discriminate)).
  assert (H23 := custom_command_id_ne Slot2 Slot3 ltac:(discriminate)).
  destruct (truthy (trim (customDirectory Slot1 (settings w)))) eqn:E1,
           (truthy (trim (customDirectory Slot2 (settings w)))) eqn:E2,
           (truthy (trim (customDirectory Slot3 (settings w)))) eqn:E3;
    destruct num; rewrite ?E1, ?E2, ?E3;
    generalize dependent (custom_command w Slot1);
    generalize dependent (custom_command w Slot2);
    generalize dependent (custom_command w Slot3);
    generalize dependent (custom_command_id w Slot1);
    generalize dependent (custom_command_id w Slot2);
    generalize dependent (custom_command_id w Slot3);
    intros; simplify_map_eq; reflexivity.
Qed.

(** Every other identifier maps to what it mapped to before. *)
Lemma updated_commands_other id :
  (forall num, id <> custom_command_id w num) ->
  updated_commands w !! id = commands w !! id.
Proof.
  intros Hid. unfold updated_commands, put_command.
  pose proof (Hid Slot1). pose proof (Hid Slot2). pose proof (Hid Slot3).
  repeat match goal with
         | |- context [if ?b then _ else _] => destruct b
         end; simplify_map_eq; reflexivity.
Qed.
End Registry.

Lemma with_commands_same w : with_commands (commands w) w = w.
Proof. destruct w; reflexivity. Qed.

(** One round of the loop of [removeCustomCommands]. *)
Lemma remove_round (num : slot) w :
  (id ← gets manifest_id;
   let commandId :=
     id ++ lit ":open-random-custom-directory-" ++ slot_text num in
   present ← has_command commandId;
   if present : bool then removeCommand commandId else mret tt) w
  = (Ret tt,
     with_commands (delete (custom_command_id w num) (commands w)) w).
Proof.
  step by reflexivity. cbv zeta.
  step by reflexivity.
  fold (custom_command_id w num).
  destruct (commands w !! custom_command_id w num) as [c|] eqn:Hc.
  - rewrite bool_decide_eq_true_2 by eauto. reflexivity.
  - rewrite bool_decide_eq_false_2 by (intros [c Hc']; congruence).
    rewrite delete_id by exact Hc. rewrite with_commands_same. reflexivity.
Qed.

(** One round of the loop of [addCustomCommands]. *)
Lemma add_round (num : slot) w :
  (s ← gets settings;
   let directoryPath := customDirectory num s in
   if truthy (trim directoryPath) then
     addCommand
       {| cmd_id := lit "open-random-custom-directory-" ++ slot_text num;
          cmd_name := lit "Random note from " ++ directoryPath;
          cmd_callback := CallCustomDirectory num |}
   else mret tt) w
  = (Ret tt, with_commands (put_command w num (commands w)) w).
Proof.
  unfold put_command.
  step by reflexivity. cbv zeta.
  destruct (truthy (trim (customDirectory num (settings w)))).
  - reflexivity.
  - rewrite with_commands_same. reflexivity.
Qed.

Lemma removeCustomCommands_ret w :
  removeCustomCommands w
  = (Ret tt,
     with_commands
       (delete (custom_command_id w Slot3)
          (delete (custom_command_id w Slot2)
             (delete (custom_command_id w Slot1) (commands w))))
       w).
Proof.
  unfold removeCustomCommands, all_slots. cbn [forEach].
  step by apply remove_round.
  step by apply remove_round.
  step by apply remove_round.
  reflexivity.
Qed.

Lemma addCustomCommands_ret w :
  addCustomCommands w
  = (Ret tt,
     with_commands
       (put_command w Slot3 (put_command w Slot2 (put_command w Slot1
          (commands w))))
       w).
Proof.
  unfold addCustomCommands, all_slots. cbn [forEach].
  step by apply add_round.
  step by apply add_round.
  step by apply add_round.
  reflexivity.
Qed.

Lemma updateCommands_ret w :
  updateCommands w = (Ret tt, with_commands (updated_commands w) w).
Proof.
  unfold updateCommands.
  step by apply removeCustomCommands_ret.
  rewrite addCustomCommands_ret. reflexivity.
Qed.

Lemma updated_registry_matches w w' :
  settings w' = settings w ->
  manifest_id w' = manifest_id w ->
  commands w' = updated_commands w ->
  forall num, registered w' num <-> configured w' num.
Proof.
  intros Hs Hm Hc num. unfold registered, configured.
  replace (custom_command_id w' num) with (custom_command_id w num)
    by (unfold custom_command_id; rewrite Hm; reflexivity).
  rewrite Hc, Hs, updated_commands_custom, <- truthy_nonempty.
  destruct (truthy (trim (customDirectory num (settings w)))).
  - split; [reflexivity | eauto].
  - split; [intros [c Hc']; discriminate Hc' | discriminate].
Qed.




(** ** The heap is left alone *)

Lemma heap_kept_refl w : heap_kept w w.
Proof. split; reflexivity. Qed.

Lemma heap_kept_trans w1 w2 w3 :
  heap_kept w1 w2 -> heap_kept w2 w3 -> heap_kept w1 w3.
Proof. intros [H1 H2] [H3 H4]. split; congruence. Qed.

Lemma reads_only_ret {A} (a : A) : reads_only (mret a : M A).
Proof. intros w. apply heap_kept_refl. Qed.

Lemma reads_only_throw {A} (e : exn) : reads_only (throw e : M A).
Proof. intros w. apply heap_kept_refl. Qed.

Lemma reads_only_gets {A} (f : World -> A) : reads_only (gets f).
Proof. intros w. apply heap_kept_refl. Qed.

Lemma reads_only_bind {A B} (m : M A) (k : A -> M B) :
  reads_only m -> (forall a, reads_only (k a)) -> reads_only (m ≫= k).
Proof.
  intros Hm Hk w. specialize (Hm w).
  unfold mbind, M_mbind, M_bind. destruct (m w) as [[a|e] w1].
  - eapply heap_kept_trans; [exact Hm | apply Hk].
  - exact Hm.
Qed.

Lemma reads_only_emit (e : event) : reads_only (emit e).
Proof. intros w. split; reflexivity. Qed.

Lemma reads_only_count_random_call :
  reads_only (modify (fun w => with_random_calls (S (random_calls w)) w)).
Proof. intros w. split; reflexivity. Qed.

Create HintDb heap.

#[local] Hint Resolve reads_only_ret reads_only_throw reads_only_gets
  reads_only_bind reads_only_emit reads_only_count_random_call : heap.

Lemma reads_only_Math_random : reads_only Math_random.
Proof. unfold Math_random. auto 6 with heap. Qed.

Lemma reads_only_read_array a : reads_only (read_array a).
Proof.
  unfold read_array. apply reads_only_bind; [auto with heap|].
  intros [xs|]; auto with heap.
Qed.

Lemma reads_only_read_file {A} (field : TFile -> A) file :
  reads_only (read_file field file).
Proof.
  unfold read_file. apply reads_only_bind; [auto with heap|].
  intros [f|]; auto with heap.
Qed.

Lemma reads_only_getMarkdownFiles : reads_only getMarkdownFiles.
Proof. unfold getMarkdownFiles. auto with heap. Qed.

#[local] Hint Resolve reads_only_Math_random reads_only_read_array
  reads_only_read_file reads_only_getMarkdownFiles : heap.

Lemma reads_only_filter_loop keep xs :
  (forall x, reads_only (keep x)) -> reads_only (filter_loop keep xs).
Proof.
  intros Hk. induction xs as [|x xs IH]; cbn [filter_loop]; auto 6 with heap.
Qed.

Lemma reads_only_getRandomNote notes : reads_only (getRandomNote notes).
Proof.
  unfold getRandomNote, Array_length, Array_get.
  apply reads_only_bind; [auto with heap|].
  intros len. destruct (len =? 0); auto 6 with heap.
Qed.

Lemma allocates_new_array xs : allocates_result (new_array xs).
Proof.
  intros w. rewrite new_array_ret. cbn [fst snd]. split.
  - split; [reflexivity|]. cbn [arrays with_arrays].
    apply insert_subseteq, fresh_array_unused.
  - apply fresh_array_unused.
Qed.

Lemma allocates_bind {A} (m : M A) (k : A -> M loc) :
  reads_only m -> (forall a, allocates_result (k a)) ->
  allocates_result (m ≫= k).
Proof.
  intros Hm Hk w. specialize (Hm w).
  unfold mbind, M_mbind, M_bind. destruct (m w) as [[a|e] w1].
  - destruct Hm as [Hf Ha]. destruct (Hk a w1) as [[Hf' Ha'] Hfresh].
    cbn [snd] in Hf, Ha. split.
    + split; [congruence | rewrite <- Ha; exact Ha'].
    + unfold fresh_array in *.
      destruct (fst (k a w1)); [rewrite <- Ha; exact Hfresh | exact I].
  - destruct Hm as [Hf Ha]. cbn [fst snd] in *. split.
    + split; [exact Hf | rewrite Ha; reflexivity].
    + exact I.
Qed.

Lemma allocates_Array_filter a keep :
  (forall x, reads_only (keep x)) -> allocates_result (Array_filter a keep).
Proof.
  intros Hk. unfold Array_filter.
  apply allocates_bind; [auto with heap|]. intros xs.
  apply allocates_bind; [apply reads_only_filter_loop; exact Hk|].
  intros kept. apply allocates_new_array.
Qed.

(** C8: whatever the world, the two filters change no [TFile] and no
    existing array, and return a new array; reading the whole vault
    and picking at random change no [TFile] and no array at all. *)
Theorem selector_leaves_input_unchanged :
  (forall days, allocates_result (getNotesFromPastDays days)) /\
  (forall directoryPath,
     allocates_result (getNotesFromDirectory directoryPath)) /\
  reads_only getAllNotes /\
  (forall notes, reads_only (getRandomNote notes)).
Proof.
  split; [|split; [|split]].
  - intros days. unfold getNotesFromPastDays, Date_now.
    apply allocates_bind; [auto with heap|]. intros now.
    apply allocates_bind; [auto with heap|]. intros a.
    apply allocates_Array_filter. auto with heap.
  - intros directoryPath. unfold getNotesFromDirectory.
    apply allocates_bind; [auto with heap|]. intros a.
    apply allocates_Array_filter. auto with heap.
  - apply reads_only_getMarkdownFiles.
  - apply reads_only_getRandomNote.
Qed.

(** ** The model at work *)

Example trim_strips_both_ends : trim (lit "  a b ") = lit "a b".
Proof. reflexivity. Qed.

Example trim_ideographic_space : trim [12288; 97; 160]%N = lit "a".
Proof. reflexivity. Qed.

Example largest_below_one :
  unit_interval (Float (2 ^ 53 - 1) (-53)) /\ ~ below_one (Float 1 0).
Proof.
  unfold unit_interval, is_binary64, below_one. vm_compute.
  intuition congruence.
Qed.

(** [(1 - 2^-53) * 3] rounds to [3 - 2^-51], whose floor is 2. *)
Example product_below_three :
  float_mul (Float (2 ^ 53 - 1) (-53)) (of_int 3)
    = Float (3 * 2 ^ 51 - 1) (-51) /\
  Math_floor (float_mul (Float (2 ^ 53 - 1) (-53)) (of_int 3)) = 2.
Proof. split; reflexivity. Qed.

(** A value below one with a mantissa of 54 bits is no binary64, and
    its product with 3 would round to 3. *)
Example wider_mantissa_reaches_three :
  below_one (Float (2 ^ 54 - 1) (-54)) /\
  Math_floor (float_mul (Float (2 ^ 54 - 1) (-54)) (of_int 3)) = 3.
Proof. split; reflexivity. Qed.

Example week_of_example :
  array_of (getNotesFromPastDays 7 example_world) = Some [1; 3]%positive.
Proof. vm_compute. reflexivity. Qed.

Example month_of_example :
  array_of (getNotesFromPastMonth example_world) = Some [1; 2; 3]%positive.
Proof. vm_compute. reflexivity. Qed.

Example pick_of_example :
  fst (getRandomNote 10%positive example_world) = Ret (Note 4%positive).
Proof. vm_compute. reflexivity. Qed.

Example vault_command_of_example :
  events (snd (openRandomNoteFromVault example_world))
    = [EvGetMarkdownFiles; EvOpenFile 4%positive;
       EvNotice (lit "Opened random note: y")].
Proof. vm_compute. reflexivity. Qed.

(** A rejected [openFile] is caught: the command returns, after a
    notice of the failure. *)
Example rejected_open_of_example :
  fst (openRandomNoteFromVault example_world_rejecting) = Ret tt /\
  events (snd (openRandomNoteFromVault example_world_rejecting))
    = [EvGetMarkdownFiles; EvOpenFile 4%positive;
       EvConsoleError (lit "ObsiRandom: Failed to open note:");
       EvNotice (lit "Failed to open note: y")].
Proof. vm_compute. split; reflexivity. Qed.

Example custom_command_of_example :
  events (snd (openRandomNoteFromCustomDirectory Slot1 example_world))
    = [EvGetMarkdownFiles; EvOpenFile 2%positive;
       EvNotice (lit "Opened random note: b")].
Proof. vm_compute. reflexivity. Qed.

(** * Further properties *)

(** ** Opening the pick *)

Lemma bind_eq_throw {A B} (m : M A) (k : A -> M B) w e w' :
  m w = (Throw e, w') -> (m ≫= k) w = (Throw e, w').
Proof. intros H. unfold mbind, M_mbind, M_bind. rewrite H. reflexivity. Qed.

Lemma holds_notes_nth w a xs i file :
  holds_notes w a xs -> xs !! i = Some file ->
  exists f, files w !! file = Some f.
Proof.
  intros [_ Hf] Hi. apply Hf, list_elem_of_lookup. exists i. exact Hi.
Qed.

Lemma random_index_lt w n :
  unit_interval (random_source w (random_calls w)) ->
  (0 < n)%nat ->
  (random_index w n < n)%nat.
Proof.
  intros [Hb Hu] Hn. unfold random_index.
  pose proof (random_index_in_range _ (Z.of_nat n) Hb Hu ltac:(lia)). lia.
Qed.

Lemma getRandomNote_picks w notes xs file :
  arrays w !! notes = Some xs ->
  unit_interval (random_source w (random_calls w)) ->
  xs !! random_index w (length xs) = Some file ->
  getRandomNote notes w
  = (Ret (Note file), with_random_calls (S (random_calls w)) w).
Proof.
  intros Ha [Hb Hu] Hi.
  assert (Hne : xs <> []) by (intros ->; discriminate Hi).
  rewrite (getRandomNote_nonempty w notes xs Ha Hne). cbv zeta.
  assert (Hlen : 0 < Z.of_nat (length xs)).
  { destruct xs; [congruence | cbn [length]; lia]. }
  pose proof (random_index_in_range _ _ Hb Hu Hlen) as Hr.
  unfold random_index in Hi.
  set (i := Math_floor _) in *.
  destruct (Z.ltb_spec i 0) as [|_]; [lia|]. rewrite Hi. reflexivity.
Qed.

Lemma openFile_run file w :
  openFile file w
  = (if openFile_rejects w file then Throw HostRejected else Ret tt,
     with_events (events w ++ [EvOpenFile file]) w).
Proof.
  unfold openFile. step by reflexivity. step by reflexivity.
  cbn [openFile_rejects with_events].
  destruct (openFile_rejects w file); reflexivity.
Qed.

(** The [try] block of [openRandomNote] and its [catch]: whether the
    host opens the file or rejects, the block returns. *)
Lemma open_attempt_run w file f :
  files w !! file = Some f ->
  try_catch
    (_ ← openFile file;
     name ← read_file basename file;
     Notice (lit "Opened random note: " ++ name))
    (fun error =>
       _ ← console_error (lit "ObsiRandom: Failed to open note:");
       name ← read_file basename file;
       Notice (lit "Failed to open note: " ++ name)) w
  = (Ret tt,
     with_events
       (events w ++ open_report (openFile_rejects w file) file (basename f))
       w).
Proof.
  intros Hf. unfold try_catch, open_report.
  destruct (openFile_rejects w file) eqn:Hrej.
  - erewrite bind_eq_throw by (rewrite openFile_run, Hrej; reflexivity).
    step by reflexivity.
    step by (apply read_file_ret; exact Hf).
    unfold Notice, emit, modify.
    cbn [events with_events]. rewrite <- !app_assoc. reflexivity.
  - step by (rewrite openFile_run, Hrej; reflexivity).
    step by (apply read_file_ret; exact Hf).
    unfold Notice, emit, modify.
    cbn [events with_events]. rewrite <- !app_assoc. reflexivity.
Qed.

Lemma openRandomNote_run w notes context xs file f :
  arrays w !! notes = Some xs ->
  unit_interval (random_source w (random_calls w)) ->
  xs !! random_index w (length xs) = Some file ->
  files w !! file = Some f ->
  openRandomNote notes context w
  = (Ret tt,
     with_events
       (events w ++ open_report (openFile_rejects w file) file (basename f))
       (with_random_calls (S (random_calls w)) w)).
Proof.
  intros Ha Hu Hi Hf.
  assert (Hne : xs <> []) by (intros ->; discriminate Hi).
  unfold openRandomNote.
  step by (apply Array_length_ret; exact Ha).
  destruct (Z.eqb_spec (Z.of_nat (length xs)) 0) as [H0|_].
  { destruct xs; [congruence | cbn [length] in H0; lia]. }
  step by (apply (getRandomNote_picks w notes xs file); assumption).
  rewrite (open_attempt_run _ file f) by exact Hf. reflexivity.
Qed.

(** From a non-empty array of notes, with [Math.random()] in [0, 1),
    the note at the random index is opened. *)
Lemma openRandomNote_picks_member w notes context xs :
  holds_notes w notes xs ->
  xs <> [] ->
  unit_interval (random_source w (random_calls w)) ->
  exists file f,
    xs !! random_index w (length xs) = Some file /\
    files w !! file = Some f /\
    openRandomNote notes context w
    = (Ret tt,
       with_events
         (events w ++
          open_report (openFile_rejects w file) file (basename f))
         (with_random_calls (S (random_calls w)) w)).
Proof.
  intros Hh Hne Hu.
  assert (Hlen : (0 < length xs)%nat).
  { destruct xs; [congruence | cbn [length]; lia]. }
  destruct (lookup_lt_is_Some_2 xs (random_index w (length xs)))
    as [file Hfile]; [apply random_index_lt; assumption|].
  destruct (holds_notes_nth w notes xs _ file Hh Hfile) as [f Hf].
  exists file, f. split; [exact Hfile|]. split; [exact Hf|].
  apply (openRandomNote_run w notes context xs file f);
    [apply Hh | assumption..].
Qed.

(** X1: from a non-empty array of notes, with [Math.random()] in
    [0, 1), [openRandomNote] asks the host to open the note at the
    random index, once, and then shows one notice with that note's
    name: "Opened random note" when the host opens it, "Failed to open
    note" after a logged error when the host rejects.  It returns in
    both cases. *)
Theorem openRandomNote_opens_pick
    (w : World) (notes : loc) (context : jsstring) (xs : list loc) :
  holds_notes w notes xs ->
  xs <> [] ->
  unit_interval (random_source w (random_calls w)) ->
  exists file f,
    xs !! random_index w (length xs) = Some file /\
    files w !! file = Some f /\
    openRandomNote notes context w
    = (Ret tt,
       with_events
         (events w ++
          open_report (openFile_rejects w file) file (basename f))
         (with_random_calls (S (random_calls w)) w)).
Proof. apply openRandomNote_picks_member. Qed.

Lemma example_holds : holds_notes example_world 10%positive example_notes.
Proof. exact example_vault. Qed.

Lemma example_unit_interval :
  unit_interval (random_source example_world (random_calls example_world)).
Proof.
  unfold unit_interval, is_binary64, below_one. vm_compute.
  repeat split; congruence.
Qed.

Lemma openRandomNote_opens_pick_witness :
  exists file f,
    example_notes !! random_index example_world (length example_notes)
      = Some file /\
    files example_world !! file = Some f /\
    openRandomNote 10%positive (lit "in the vault") example_world
    = (Ret tt,
       with_events
         (events example_world ++
          open_report (openFile_rejects example_world file) file (basename f))
         (with_random_calls (S (random_calls example_world)) example_world)).
Proof.
  apply (openRandomNote_opens_pick example_world 10%positive
           (lit "in the vault") example_notes).
  - exact example_holds.
  - discriminate.
  - exact example_unit_interval.
Defined.

(** ** What a command never does *)

Lemma plugin_state_kept_refl w : plugin_state_kept w w.
Proof. repeat split; reflexivity. Qed.

Lemma plugin_state_kept_trans w1 w2 w3 :
  plugin_state_kept w1 w2 -> plugin_state_kept w2 w3 ->
  plugin_state_kept w1 w3.
Proof.
  intros (F1 & A1 & S1 & C1 & M1 & V1 & K1 & N1)
         (F2 & A2 & S2 & C2 & M2 & V2 & K2 & N2).
  repeat split; try congruence. etrans; eassumption.
Qed.

Lemma plugin_state_kept_events w l : plugin_state_kept w (with_events l w).
Proof. repeat split; reflexivity. Qed.

Lemma plugin_state_kept_random w n :
  plugin_state_kept w (with_random_calls n w).
Proof. repeat split; reflexivity. Qed.

(** X2: whatever [Math.random()] returns and whatever the host does
    with [openFile], [openRandomNote] on an array of notes returns:
    no exception leaves it.  It changes no [TFile], no array, no
    setting and no registered command. *)
Theorem openRandomNote_never_throws
    (w : World) (notes : loc) (context : jsstring) (xs : list loc) :
  holds_notes w notes xs ->
  exists w',
    openRandomNote notes context w = (Ret tt, w') /\
    plugin_state_kept w w' /\ arrays w' = arrays w.
Proof.
  intros [Ha Hf]. destruct xs as [|x xs].
  - eexists. split; [apply openRandomNote_empty; exact Ha|].
    split; [apply plugin_state_kept_events | reflexivity].
  - unfold openRandomNote.
    step by (apply Array_length_ret; exact Ha).
    destruct (Z.eqb_spec (Z.of_nat (length (x :: xs))) 0) as [H0|_];
      [cbn [length] in H0; lia|].
    step by (apply (getRandomNote_nonempty w notes (x :: xs) Ha);
             discriminate).
    cbv zeta. set (i := Math_floor _).
    set (w1 := with_random_calls (S (random_calls w)) w).
    destruct (i <? 0).
    { eexists. split; [reflexivity|].
      split; [apply plugin_state_kept_random | reflexivity]. }
    destruct ((x :: xs) !! Z.to_nat i) as [file|] eqn:Hi.
    + destruct (Hf file) as [f Hfile].
      { apply list_elem_of_lookup. eexists. exact Hi. }
      rewrite (open_attempt_run w1 file f) by exact Hfile.
      eexists. split; [reflexivity|]. split; [|reflexivity].
      repeat split; reflexivity.
    + eexists. split; [reflexivity|].
      split; [apply plugin_state_kept_random | reflexivity].
Qed.

Lemma openRandomNote_never_throws_witness :
  exists w',
    openRandomNote 10%positive (lit "in the vault") example_world_rejecting
    = (Ret tt, w') /\
    plugin_state_kept example_world_rejecting w' /\
    arrays w' = arrays example_world_rejecting.
Proof.
  apply (openRandomNote_never_throws example_world_rejecting 10%positive
           (lit "in the vault") example_notes).
  exact example_vault.
Defined.

(** ** The commands, end to end *)

(** A command whose candidates [kept] come from one listing of the
    vault reports on them. *)
Lemma executeRandomNoteCommand_reports
    w (getNotes : M loc) context a w1 kept :
  getNotes w = (Ret a, w1) ->
  arrays w1 !! a = Some kept ->
  (forall x, x ∈ kept -> is_Some (files w !! x)) ->
  files w1 = files w ->
  events w1 = events w ++ [EvGetMarkdownFiles] ->
  random_source w1 = random_source w ->
  random_calls w1 = random_calls w ->
  openFile_rejects w1 = openFile_rejects w ->
  unit_interval (random_source w (random_calls w)) ->
  exists w',
    executeRandomNoteCommand getNotes context w = (Ret tt, w') /\
    command_reports w w' context kept.
Proof.
  intros Hrun Ha Hf Hfiles Hev Hsrc Hcalls Hrej Hu.
  unfold executeRandomNoteCommand. step by exact Hrun.
  destruct kept as [|x kept].
  - rewrite (openRandomNote_empty w1 a context Ha).
    eexists. split; [reflexivity|].
    cbn [command_reports after_notice events with_events].
    rewrite Hev, <- app_assoc. reflexivity.
  - destruct (openRandomNote_picks_member w1 a context (x :: kept))
      as (file & f & Hi & Hfile & Hopen).
    + split; [exact Ha|]. intros y Hy. rewrite Hfiles. apply Hf, Hy.
    + discriminate.
    + rewrite Hsrc, Hcalls. exact Hu.
    + rewrite Hopen. eexists. split; [reflexivity|].
      cbn [command_reports]. exists file, f.
      split; [apply list_elem_of_lookup; eexists; exact Hi|].
      split; [rewrite <- Hfiles; exact Hfile|].
      cbn [events with_events]. rewrite Hev, Hrej, <- app_assoc.
      reflexivity.
Qed.

Lemma filter_command_selects
    w (getNotes : M loc) context xs (p : loc -> bool) (P : TFile -> Prop) :
  vault_lists w xs ->
  unit_interval (random_source w (random_calls w)) ->
  getNotes w =
    (Ret (fresh (dom (arrays w))),
     with_arrays
       (<[fresh (dom (arrays w)) := filter (fun x => p x = true) xs]>
          (arrays w))
       (with_events (events w ++ [EvGetMarkdownFiles]) w)) ->
  (forall file, p file = true <-> exists f, files w !! file = Some f /\ P f) ->
  command_selects w (executeRandomNoteCommand getNotes context) context xs P.
Proof.
  intros [Ha Hf] Hu Hrun Hp.
  destruct (executeRandomNoteCommand_reports w getNotes context _ _
              (filter (fun x => p x = true) xs) Hrun) as (w' & Hcmd & Hrep);
    try reflexivity; try assumption.
  - cbn [arrays with_arrays]. apply lookup_insert_eq.
  - intros x Hx. apply list_elem_of_filter in Hx as [_ Hx]. apply Hf, Hx.
  - exists (filter (fun x => p x = true) xs), w'.
    split; [exact Hcmd|]. split; [|exact Hrep].
    intros file. rewrite list_elem_of_filter, Hp. tauto.
Qed.

Lemma days_command_selects w days context xs :
  vault_lists w xs ->
  unit_interval (random_source w (random_calls w)) ->
  command_selects w
    (executeRandomNoteCommand (getNotesFromPastDays days) context)
    context xs (fun f => ctime f >= clock w - days * 86400000).
Proof.
  intros Hv Hu. eapply filter_command_selects; try eassumption.
  - apply getNotesFromPastDays_ret. exact Hv.
  - intros file. apply created_since_spec.
Qed.

(** X3: the vault command returns, with every note of the vault as a
    candidate: on an empty vault it shows "No notes found in the
    vault!", otherwise it asks the host to open one note of the
    vault. *)
Theorem openRandomNoteFromVault_selects (w : World) (xs : list loc) :
  vault_lists w xs ->
  unit_interval (random_source w (random_calls w)) ->
  command_selects w openRandomNoteFromVault (lit "in the vault") xs
    (fun _ => True).
Proof.
  intros [Ha Hf] Hu.
  destruct (executeRandomNoteCommand_reports w getAllNotes
              (lit "in the vault") _ _ xs (getMarkdownFiles_ret w))
    as (w' & Hcmd & Hrep); try reflexivity; try assumption.
  exists xs, w'. split; [exact Hcmd|]. split; [|exact Hrep].
  intros file. split.
  - intros Hin. split; [exact Hin|].
    destruct (Hf file Hin) as [f Hfile]. exists f. split; [exact Hfile | exact I].
  - intros [Hin _]. exact Hin.
Qed.

Lemma openRandomNoteFromVault_selects_witness :
  command_selects example_world openRandomNoteFromVault (lit "in the vault")
    example_notes (fun _ => True).
Proof.
  apply (openRandomNoteFromVault_selects example_world example_notes).
  - exact example_vault.
  - exact example_unit_interval.
Defined.

(** X4: the past-week, past-month and past-year commands return, with
    exactly the notes created in the last 7, 30 and 365 days as
    candidates: the note a command opens was created in its window,
    and "No notes found from the past ..." appears exactly when no
    note of the vault was. *)
Theorem recency_commands_select (w : World) (xs : list loc) :
  vault_lists w xs ->
  unit_interval (random_source w (random_calls w)) ->
  command_selects w openRandomRecentNote (lit "from the past 7 days") xs
    (fun f => ctime f >= clock w - 7 * 86400000) /\
  command_selects w openRandomNoteFromMonth (lit "from the past month") xs
    (fun f => ctime f >= clock w - 30 * 86400000) /\
  command_selects w openRandomNoteFromYear (lit "from the past year") xs
    (fun f => ctime f >= clock w - 365 * 86400000).
Proof.
  intros Hv Hu. split; [|split].
  - apply (days_command_selects w WEEK _ xs Hv Hu).
  - apply (days_command_selects w MONTH _ xs Hv Hu).
  - apply (days_command_selects w YEAR _ xs Hv Hu).
Qed.

Lemma recency_commands_select_witness :
  command_selects example_world openRandomRecentNote
    (lit "from the past 7 days") example_notes
    (fun f => ctime f >= clock example_world - 7 * 86400000).
Proof.
  apply (recency_commands_select example_world example_notes).
  - exact example_vault.
  - exact example_unit_interval.
Defined.

(** A configured slot: the action is the command of its directory. *)
Lemma custom_directory_selects
    (w : World) (num : slot) (xs : list loc) :
  vault_lists w xs ->
  unit_interval (random_source w (random_calls w)) ->
  configured w num ->
  command_selects w (openRandomNoteFromCustomDirectory num)
    (lit "in " ++ customDirectory num (settings w) ++ lit " directory") xs
    (fun f => exists rest, path f = customDirectory num (settings w) ++ rest).
Proof.
  intros Hv Hu Hc.
  assert (Hsame :
    openRandomNoteFromCustomDirectory num w
    = executeRandomNoteCommand
        (getNotesFromDirectory (customDirectory num (settings w)))
        (lit "in " ++ customDirectory num (settings w) ++ lit " directory") w).
  { unfold openRandomNoteFromCustomDirectory, executeRandomNoteCommand.
    step by reflexivity. cbv zeta.
    apply truthy_nonempty in Hc. rewrite Hc. reflexivity. }
  destruct (filter_command_selects w
              (getNotesFromDirectory (customDirectory num (settings w)))
              (lit "in " ++ customDirectory num (settings w) ++ lit " directory")
              xs (under_directory w (customDirectory num (settings w)))
              (fun f => exists rest,
                 path f = customDirectory num (settings w) ++ rest)
              Hv Hu)
    as (kept & w' & Hrun & Hkept & Hrep).
  - apply getNotesFromDirectory_ret. exact Hv.
  - intros file. apply under_directory_spec.
  - exists kept, w'. rewrite Hsame. auto.
Qed.

(** X5: a configured custom-directory command returns, with exactly the
    notes whose path starts with the setting as candidates.  The
    setting is used as typed: the white space that the test for
    "configured" trims away stays part of the prefix and of the
    notice. *)
Theorem custom_directory_command_selects
    (w : World) (num : slot) (xs : list loc) :
  vault_lists w xs ->
  unit_interval (random_source w (random_calls w)) ->
  configured w num ->
  command_selects w (openRandomNoteFromCustomDirectory num)
    (lit "in " ++ customDirectory num (settings w) ++ lit " directory") xs
    (fun f => exists rest, path f = customDirectory num (settings w) ++ rest).
Proof. apply custom_directory_selects. Qed.

Lemma custom_directory_command_selects_witness :
  command_selects example_world (openRandomNoteFromCustomDirectory Slot1)
    (lit "in Projects directory") example_notes
    (fun f => exists rest, path f = lit "Projects" ++ rest).
Proof.
  apply (custom_directory_command_selects example_world Slot1 example_notes).
  - exact example_vault.
  - exact example_unit_interval.
  - discriminate.
Defined.

Lemma keeps_ret {A} (a : A) : keeps_plugin_state (mret a : M A).
Proof. intros w. apply plugin_state_kept_refl. Qed.

Lemma keeps_throw {A} (e : exn) : keeps_plugin_state (throw e : M A).
Proof. intros w. apply plugin_state_kept_refl. Qed.

Lemma keeps_gets {A} (f : World -> A) : keeps_plugin_state (gets f).
Proof. intros w. apply plugin_state_kept_refl. Qed.

Lemma keeps_bind {A B} (m : M A) (k : A -> M B) :
  keeps_plugin_state m -> (forall a, keeps_plugin_state (k a)) ->
  keeps_plugin_state (m ≫= k).
Proof.
  intros Hm Hk w. specialize (Hm w).
  unfold mbind, M_mbind, M_bind. destruct (m w) as [[a|e] w1].
  - eapply plugin_state_kept_trans; [exact Hm | apply Hk].
  - exact Hm.
Qed.

Lemma keeps_try_catch {A} (body : M A) (handler : exn -> M A) :
  keeps_plugin_state body -> (forall e, keeps_plugin_state (handler e)) ->
  keeps_plugin_state (try_catch body handler).
Proof.
  intros Hb Hh w. specialize (Hb w).
  unfold try_catch. destruct (body w) as [[a|e] w1].
  - exact Hb.
  - eapply plugin_state_kept_trans; [exact Hb | apply Hh].
Qed.

Lemma keeps_emit (e : event) : keeps_plugin_state (emit e).
Proof. intros w. apply plugin_state_kept_events. Qed.

Lemma keeps_count_random_call :
  keeps_plugin_state
    (modify (fun w => with_random_calls (S (random_calls w)) w)).
Proof. intros w. apply plugin_state_kept_random. Qed.

Lemma keeps_new_array xs : keeps_plugin_state (new_array xs).
Proof.
  intros w. rewrite new_array_ret. cbn [snd].
  repeat split; try reflexivity.
  cbn [arrays with_arrays]. apply insert_subseteq, fresh_array_unused.
Qed.

Create HintDb plugin.

#[local] Hint Resolve keeps_ret keeps_throw keeps_gets keeps_bind
  keeps_try_catch keeps_emit keeps_count_random_call keeps_new_array
  : plugin.

Lemma keeps_read_array a : keeps_plugin_state (read_array a).
Proof.
  unfold read_array. apply keeps_bind; [auto with plugin|].
  intros [xs|]; auto with plugin.
Qed.

Lemma keeps_read_file {A} (field : TFile -> A) file :
  keeps_plugin_state (read_file field file).
Proof.
  unfold read_file. apply keeps_bind; [auto with plugin|].
  intros [f|]; auto with plugin.
Qed.

#[local] Hint Resolve keeps_read_array keeps_read_file : plugin.

Lemma keeps_filter_loop keep xs :
  (forall x, keeps_plugin_state (keep x)) ->
  keeps_plugin_state (filter_loop keep xs).
Proof.
  intros Hk. induction xs as [|x xs IH]; cbn [filter_loop];
    auto 6 with plugin.
Qed.

Lemma keeps_Array_filter a keep :
  (forall x, keeps_plugin_state (keep x)) ->
  keeps_plugin_state (Array_filter a keep).
Proof.
  intros Hk. unfold Array_filter.
  apply keeps_bind; [auto with plugin|]. intros xs.
  apply keeps_bind; [apply keeps_filter_loop; exact Hk|].
  auto with plugin.
Qed.

Lemma keeps_getMarkdownFiles : keeps_plugin_state getMarkdownFiles.
Proof. unfold getMarkdownFiles. auto with plugin. Qed.

Lemma keeps_getNotesFromPastDays days :
  keeps_plugin_state (getNotesFromPastDays days).
Proof.
  unfold getNotesFromPastDays, Date_now.
  apply keeps_bind; [auto with plugin|]. intros now.
  apply keeps_bind; [apply keeps_getMarkdownFiles|]. intros a.
  apply keeps_Array_filter. auto with plugin.
Qed.

Lemma keeps_getNotesFromDirectory directoryPath :
  keeps_plugin_state (getNotesFromDirectory directoryPath).
Proof.
  unfold getNotesFromDirectory.
  apply keeps_bind; [apply keeps_getMarkdownFiles|]. intros a.
  apply keeps_Array_filter. auto with plugin.
Qed.

Lemma keeps_getRandomNote notes : keeps_plugin_state (getRandomNote notes).
Proof.
  unfold getRandomNote, Array_length, Array_get, Math_random.
  apply keeps_bind; [auto with plugin|].
  intros len. destruct (len =? 0); auto 8 with plugin.
Qed.

Lemma keeps_openRandomNote notes context :
  keeps_plugin_state (openRandomNote notes context).
Proof.
  unfold openRandomNote, Array_length, Notice, console_error, openFile.
  apply keeps_bind; [auto with plugin|].
  intros len. destruct (len =? 0); [auto with plugin|].
  apply keeps_bind; [apply keeps_getRandomNote|].
  intros [| |file]; [auto with plugin..|].
  apply keeps_try_catch.
  - apply keeps_bind.
    + apply keeps_bind; [auto with plugin|]. intros _.
      apply keeps_bind; [auto with plugin|]. intros [|]; auto with plugin.
    + auto with plugin.
  - auto 6 with plugin.
Qed.

Lemma keeps_executeRandomNoteCommand getNotes context :
  keeps_plugin_state getNotes ->
  keeps_plugin_state (executeRandomNoteCommand getNotes context).
Proof.
  intros Hg. unfold executeRandomNoteCommand.
  apply keeps_bind; [exact Hg|]. intros notes. apply keeps_openRandomNote.
Qed.

Lemma keeps_run_callback (c : callback) :
  keeps_plugin_state (run_callback c).
Proof.
  destruct c as [| | | |num]; cbn [run_callback].
  - apply keeps_executeRandomNoteCommand, keeps_getMarkdownFiles.
  - apply keeps_executeRandomNoteCommand, keeps_getNotesFromPastDays.
  - apply keeps_executeRandomNoteCommand, keeps_getNotesFromPastDays.
  - apply keeps_executeRandomNoteCommand, keeps_getNotesFromPastDays.
  - unfold openRandomNoteFromCustomDirectory, Notice.
    apply keeps_bind; [auto with plugin|]. intros s. cbv zeta.
    destruct (negb _); [auto with plugin|].
    apply keeps_bind; [apply keeps_getNotesFromDirectory|].
    intros notes. apply keeps_openRandomNote.
Qed.

(** X6: no command, whichever way it ends, changes a [TFile], an
    existing array, a setting or the registry of commands: running a
    command only logs host calls, allocates arrays and draws random
    numbers. *)
Theorem commands_keep_plugin_state (c : callback) :
  keeps_plugin_state (run_callback c).
Proof. apply keeps_run_callback. Qed.

(** ** More on the registry *)

Lemma builtin_id_not_custom w c num :
  c ∈ builtInCommands ->
  builtin_command_id w c <> custom_command_id w num.
Proof.
  unfold builtin_command_id, custom_command_id, builtInCommands.
  intros Hc H. apply app_inv_head in H.
  repeat (apply elem_of_cons in Hc as [->|Hc];
          [destruct num; discriminate H|]).
  apply elem_of_nil in Hc. exact Hc.
Qed.

Lemma updated_commands_again w :
  updated_commands (with_commands (updated_commands w) w)
  = updated_commands w.
Proof.
  apply map_eq. intros i.
  set (w' := with_commands (updated_commands w) w).
  assert (Hcases : (exists num, i = custom_command_id w num) \/
                   (forall num, i <> custom_command_id w num)).
  { destruct (decide (i = custom_command_id w Slot1)); [left; eauto|].
    destruct (decide (i = custom_command_id w Slot2)); [left; eauto|].
    destruct (decide (i = custom_command_id w Slot3)); [left; eauto|].
    right. intros [| |]; assumption. }
  destruct Hcases as [[num ->]|Hother].
  - change (custom_command_id w num) with (custom_command_id w' num) at 1.
    rewrite (updated_commands_custom w' num), (updated_commands_custom w num).
    reflexivity.
  - rewrite (updated_commands_other w' i); [reflexivity | exact Hother].
Qed.

(** X7: [updateCommands] writes the registry and nothing else, and a
    second run right after the first changes nothing. *)
Theorem updateCommands_idempotent (w : World) :
  exists w',
    updateCommands w = (Ret tt, w') /\
    w' = with_commands (commands w') w /\
    updateCommands w' = (Ret tt, w').
Proof.
  exists (with_commands (updated_commands w) w).
  split; [apply updateCommands_ret|]. split; [reflexivity|].
  rewrite updateCommands_ret, updated_commands_again. reflexivity.
Qed.

Lemma saveSettings_run w :
  saveSettings w
  = (if saveData_rejects w then Throw HostRejected else Ret tt,
     with_events (events w ++ [EvSaveData (settings w)]) w).
Proof.
  unfold saveSettings, saveData.
  step by reflexivity. step by reflexivity. step by reflexivity.
  cbn [saveData_rejects with_events].
  destruct (saveData_rejects w); reflexivity.
Qed.

(** The handler, run to its end or to the rejection of [saveData]. *)
Lemma onChange_run num value w :
  onChange num value w
  = let w1 := with_settings (set_customDirectory num value (settings w)) w in
    let w2 := with_events (events w ++ [EvSaveData (settings w1)]) w1 in
    if saveData_rejects w then (Throw HostRejected, w2)
    else (Ret tt, with_commands (updated_commands w2) w2).
Proof.
  unfold onChange. step by reflexivity. cbv zeta.
  set (w1 := with_settings (set_customDirectory num value (settings w)) w).
  destruct (saveData_rejects w) eqn:Hsave.
  - erewrite bind_eq_throw; [reflexivity|].
    rewrite saveSettings_run.
    cbn [saveData_rejects w1 with_settings]. rewrite Hsave. reflexivity.
  - erewrite bind_ret.
    2:{ rewrite saveSettings_run.
        cbn [saveData_rejects w1 with_settings]. rewrite Hsave. reflexivity. }
    apply updateCommands_ret.
Qed.

(** X8: the four built-in commands are out of reach of the updates:
    neither [updateCommands] nor the handler of a settings change,
    whether the host saves or rejects, touches their registry entries. *)
Theorem builtins_survive_updates (w : World) (c : Command) :
  c ∈ builtInCommands ->
  commands (snd (updateCommands w)) !! builtin_command_id w c
    = commands w !! builtin_command_id w c /\
  forall num value,
    commands (snd (onChange num value w)) !! builtin_command_id w c
    = commands w !! builtin_command_id w c.
Proof.
  intros Hc. split.
  - rewrite updateCommands_ret. cbn [snd commands with_commands].
    apply updated_commands_other. intros num.
    apply builtin_id_not_custom. exact Hc.
  - intros num value. rewrite onChange_run. cbv zeta.
    destruct (saveData_rejects w); cbn [snd commands with_commands
      with_events with_settings]; [reflexivity|].
    set (w2 := with_events _ _).
    change (commands w) with (commands w2).
    change (builtin_command_id w c) with (builtin_command_id w2 c).
    apply updated_commands_other. intros k.
    apply builtin_id_not_custom. exact Hc.
Qed.

Lemma builtins_survive_updates_witness :
  commands (snd (onChange Slot1 (lit "A") example_world))
    !! (lit "obsirandom:open-random-note")
  = commands example_world !! (lit "obsirandom:open-random-note").
Proof.
  apply (builtins_survive_updates example_world
           {| cmd_id := lit "open-random-note";
              cmd_name := lit "Random note from vault";
              cmd_callback := CallVault |}).
  left.
Defined.

(** X9: when the host rejects [saveData], the handler of a settings
    change ends with that rejection after the setting was changed in
    memory and before the commands are updated: the registry is as it
    was, whatever the new setting. *)
Theorem onChange_save_rejected (w : World) (num : slot) (value : jsstring) :
  saveData_rejects w = true ->
  exists w',
    onChange num value w = (Throw HostRejected, w') /\
    customDirectory num (settings w') = value /\
    events w' = events w ++ [EvSaveData (settings w')] /\
    commands w' = commands w /\
    (forall k, registered w' k <-> registered w k).
Proof.
  intros Hsave. rewrite onChange_run, Hsave. cbv zeta.
  eexists. split; [reflexivity|].
  cbn [settings events commands with_events with_settings].
  split; [destruct num; reflexivity|].
  split; [reflexivity|]. split; [reflexivity|].
  intros k. reflexivity.
Qed.

Lemma onChange_save_rejected_witness :
  exists w',
    onChange Slot3 (lit "A") example_world_unsaved
      = (Throw HostRejected, w') /\
    customDirectory Slot3 (settings w') = lit "A" /\
    events w' = events example_world_unsaved ++ [EvSaveData (settings w')] /\
    commands w' = commands example_world_unsaved /\
    (forall k, registered w' k <-> registered example_world_unsaved k).
Proof.
  apply (onChange_save_rejected example_world_unsaved Slot3 (lit "A")).
  reflexivity.
Defined.

(** ** Loading *)

Lemma addCommand_run c w :
  addCommand c w
  = (Ret tt,
     with_commands
       (<[builtin_command_id w c := builtin_command w c]> (commands w)) w).
Proof. reflexivity. Qed.

Lemma builtin_command_id_inj w c1 c2 :
  builtin_command_id w c1 = builtin_command_id w c2 -> cmd_id c1 = cmd_id c2.
Proof.
  unfold builtin_command_id. intros H.
  apply app_inv_head in H. apply app_inv_head in H. exact H.
Qed.

(** The registry after the loop over [builtInCommands]. *)
Lemma builtins_registered (w : World) (m : gmap jsstring Command) c :
  c ∈ builtInCommands ->
  foldl (fun (m : gmap jsstring Command) (c : Command) =>
           <[builtin_command_id w c := builtin_command w c]> m)
        m builtInCommands
    !! builtin_command_id w c
  = Some (builtin_command w c).
Proof.
  intros Hc. unfold builtInCommands in *. cbn [foldl].
  repeat (apply elem_of_cons in Hc as [->|Hc];
          [repeat (first
             [ apply lookup_insert_eq
             | rewrite lookup_insert_ne
                 by (intros H; apply builtin_command_id_inj in H;
                     discriminate H) ])|]).
  apply elem_of_nil in Hc. destruct Hc.
Qed.

Lemma builtins_registered_other (w : World) (m : gmap jsstring Command) id :
  (forall c, c ∈ builtInCommands -> id <> builtin_command_id w c) ->
  foldl (fun (m : gmap jsstring Command) (c : Command) =>
           <[builtin_command_id w c := builtin_command w c]> m)
        m builtInCommands
    !! id
  = m !! id.
Proof.
  intros Hid. unfold builtInCommands in *. cbn [foldl].
  rewrite !lookup_insert_ne; [reflexivity|..];
    intros H; symmetry in H; revert H; apply Hid;
    repeat first [left; reflexivity | right].
Qed.

Lemma onload_rejected w : onload LoadRejected w = (Throw HostRejected, w).
Proof. reflexivity. Qed.

Lemma onload_run (data : option StoredData) w :
  onload (LoadResolved data) w
  = let w1 := with_settings (Object_assign DEFAULT_SETTINGS data) w in
    let w2 :=
      with_commands
        (foldl (fun (m : gmap jsstring Command) (c : Command) =>
           <[builtin_command_id w c := builtin_command w c]> m)
               (commands w) builtInCommands) w1 in
    (Ret tt, with_commands (updated_commands w2) w2).
Proof.
  unfold onload, loadSettings. step by reflexivity.
  unfold builtInCommands. cbn [forEach].
  erewrite bind_ret.
  2:{ step by apply addCommand_run. step by apply addCommand_run.
      step by apply addCommand_run. step by apply addCommand_run.
      reflexivity. }
  rewrite updateCommands_ret. reflexivity.
Qed.

(** X10: when the host rejects [loadData], [onload] ends with that
    rejection and the world is as it was: nothing is registered.  When
    [loadData] resolves, to [null] or to stored settings, [onload]
    returns; it sets the settings to the stored data laid over the
    defaults, registers the four built-in commands, each under the
    plugin's id and name, and registers the command of a slot exactly
    when the loaded directory of the slot is configured; with nothing
    stored, no custom-directory command is registered.  No other
    entry of the registry changes. *)
Theorem onload_registers (w : World) :
  onload LoadRejected w = (Throw HostRejected, w) /\
  forall data : option StoredData,
  exists w',
    onload (LoadResolved data) w = (Ret tt, w') /\
    settings w' = Object_assign DEFAULT_SETTINGS data /\
    (forall c,
       c ∈ builtInCommands ->
       commands w' !! builtin_command_id w' c = Some (builtin_command w' c)) /\
    (forall num, registered w' num <-> configured w' num) /\
    (data = None -> forall num, ~ registered w' num) /\
    (forall id,
       (forall num, id <> custom_command_id w num) ->
       (forall c, c ∈ builtInCommands -> id <> builtin_command_id w c) ->
       commands w' !! id = commands w !! id).
Proof.
  split; [apply onload_rejected|]. intros data.
  rewrite onload_run. cbv zeta.
  set (w1 := with_settings (Object_assign DEFAULT_SETTINGS data) w).
  set (w2 := with_commands _ w1).
  assert (Hreg : forall num,
            registered (with_commands (updated_commands w2) w2) num <->
            configured (with_commands (updated_commands w2) w2) num)
    by (apply (updated_registry_matches w2); reflexivity).
  eexists. split; [reflexivity|]. split; [reflexivity|].
  split; [|split; [exact Hreg|split]].
  - intros c Hc. cbn [commands with_commands].
    change (builtin_command_id (with_commands (updated_commands w2) w2) c)
      with (builtin_command_id w2 c).
    rewrite updated_commands_other
      by (intros num; apply builtin_id_not_custom; exact Hc).
    apply (builtins_registered w). exact Hc.
  - intros -> num Hnum. apply Hreg in Hnum. apply Hnum.
    cbn [settings with_commands with_settings w2 w1 Object_assign].
    destruct num; reflexivity.
  - intros id Hcustom Hbuiltin. cbn [commands with_commands].
    rewrite updated_commands_other by exact Hcustom.
    apply (builtins_registered_other w). exact Hbuiltin.
Qed.

(** X11: a custom-directory command found in the registry after
    [updateCommands] has the callback of its slot, and for its name
    the plugin's name, ": " and "Random note from" with the directory
    of its slot; invoked while the settings stand, it never answers
    with the configuration prompt: it lists the vault and selects
    among the notes under its directory. *)
Theorem registered_command_selects
    (w w' : World) (num : slot) (c : Command) (xs : list loc) :
  updateCommands w = (Ret tt, w') ->
  commands w' !! custom_command_id w' num = Some c ->
  vault_lists w' xs ->
  unit_interval (random_source w' (random_calls w')) ->
  cmd_callback c = CallCustomDirectory num /\
  cmd_name c
    = manifest_name w' ++ lit ": " ++
      lit "Random note from " ++ customDirectory num (settings w') /\
  command_selects w' (run_callback (cmd_callback c))
    (lit "in " ++ customDirectory num (settings w') ++ lit " directory") xs
    (fun f => exists rest, path f = customDirectory num (settings w') ++ rest).
Proof.
  intros Hrun Hc Hv Hu. rewrite updateCommands_ret in Hrun.
  injection Hrun as <-.
  cbn [commands with_commands] in Hc.
  change (custom_command_id (with_commands (updated_commands w) w) num)
    with (custom_command_id w num) in Hc.
  rewrite updated_commands_custom in Hc.
  destruct (truthy (trim (customDirectory num (settings w)))) eqn:Ht;
    [|discriminate Hc].
  injection Hc as <-. split; [reflexivity|]. split; [reflexivity|].
  cbn [cmd_callback custom_command run_callback].
  apply custom_directory_selects; [exact Hv | exact Hu |].
  unfold configured. apply truthy_nonempty. exact Ht.
Qed.

Lemma registered_command_selects_witness :
  cmd_callback (custom_command example_world Slot1) = CallCustomDirectory Slot1 /\
  cmd_name (custom_command example_world Slot1)
    = lit "ObsiRandom: Random note from Projects" /\
  command_selects (snd (updateCommands example_world))
    (run_callback (cmd_callback (custom_command example_world Slot1)))
    (lit "in Projects directory") example_notes
    (fun f => exists rest, path f = lit "Projects" ++ rest).
Proof.
  apply (registered_command_selects example_world
           (snd (updateCommands example_world)) Slot1
           (custom_command example_world Slot1) example_notes).
  - vm_compute. reflexivity.
  - vm_compute. reflexivity.
  - exact example_vault.
  - exact example_unit_interval.
Defined.

(** ** Blank and configured *)

Lemma trimStart_nil (s : jsstring) :
  trimStart s = [] <-> blank s.
Proof.
  unfold blank. induction s as [|c s IH]; cbn [trimStart forallb].
  - split; reflexivity.
  - destruct (isWhiteSpace c); cbn [andb]; [exact IH|].
    split; discriminate.
Qed.

Lemma trimStart_blank_or_kept (s : jsstring) :
  trimStart s = [] \/
  exists c r, trimStart s = c :: r /\ isWhiteSpace c = false.
Proof.
  induction s as [|c s IH]; cbn [trimStart]; [left; reflexivity|].
  destruct (isWhiteSpace c) eqn:Hc; [exact IH|].
  right. exists c, s. split; [reflexivity | exact Hc].
Qed.

Lemma blank_rev (s : jsstring) : blank (rev s) <-> blank s.
Proof.
  unfold blank. rewrite !forallb_forall.
  split; intros H c Hc; apply H.
  - apply in_rev. rewrite rev_involutive. exact Hc.
  - apply in_rev. exact Hc.
Qed.

Lemma trim_nil (s : jsstring) : trim s = [] <-> blank s.
Proof.
  split; [|apply trim_blank].
  unfold trim, trimEnd. intros H.
  apply (f_equal (@rev N)) in H. rewrite rev_involutive in H.
  cbn [rev] in H. apply (proj1 (trimStart_nil _)) in H.
  apply (proj1 (blank_rev _)) in H.
  apply trimStart_nil.
  destruct (trimStart_blank_or_kept s) as [|(c & r & Hs & Hc)];
    [assumption|].
  rewrite Hs in H. unfold blank in H. cbn [forallb] in H.
  rewrite Hc in H. discriminate H.
Qed.

Lemma not_blank (s : jsstring) :
  ~ blank s <-> exists c, c ∈ s /\ isWhiteSpace c = false.
Proof.
  unfold blank. induction s as [|c s IH]; cbn [forallb].
  - split; [intros H; destruct H; reflexivity|].
    intros (c & Hc & _). apply elem_of_nil in Hc. destruct Hc.
  - destruct (isWhiteSpace c) eqn:Hc; cbn [andb].
    + rewrite IH. split.
      * intros (d & Hd & Hw). exists d. split; [right; exact Hd | exact Hw].
      * intros (d & Hd & Hw). apply elem_of_cons in Hd as [->|Hd];
          [congruence|]. exists d. split; assumption.
    + split; [|intros _; discriminate].
      intros _. exists c. split; [left | exact Hc].
Qed.

(** X12: a directory counts as configured exactly when its setting has
    a code unit that [trim] does not strip.  So the action of a slot
    has two cases and no third: on a blank setting the prompt and
    nothing else, on any other setting the selection among the notes
    under the directory. *)
Theorem custom_directory_action_cases
    (w : World) (num : slot) (xs : list loc) :
  vault_lists w xs ->
  unit_interval (random_source w (random_calls w)) ->
  (configured w num <->
   exists c, c ∈ customDirectory num (settings w) /\ isWhiteSpace c = false) /\
  ((blank (customDirectory num (settings w)) /\
    openRandomNoteFromCustomDirectory num w
      = (Ret tt, after_notice (configuration_prompt num) w)) \/
   (configured w num /\
    command_selects w (openRandomNoteFromCustomDirectory num)
      (lit "in " ++ customDirectory num (settings w) ++ lit " directory") xs
      (fun f =>
         exists rest, path f = customDirectory num (settings w) ++ rest))).
Proof.
  intros Hv Hu.
  assert (Hiff : configured w num <-> ~ blank (customDirectory num (settings w))).
  { unfold configured. rewrite trim_nil. reflexivity. }
  split; [rewrite Hiff; apply not_blank|].
  destruct (decide (trim (customDirectory num (settings w)) = [])) as [Hb|Hc].
  - left. apply trim_nil in Hb. split; [exact Hb|].
    unfold openRandomNoteFromCustomDirectory.
    step by reflexivity. cbv zeta.
    rewrite (trim_blank _ Hb). reflexivity.
  - right. split; [exact Hc|].
    apply custom_directory_selects; assumption.
Qed.

Lemma custom_directory_action_cases_witness :
  configured example_world Slot2 <->
  exists c, c ∈ customDirectory Slot2 (settings example_world) /\
            isWhiteSpace c = false.
Proof.
  apply (custom_directory_action_cases example_world Slot2 example_notes).
  - exact example_vault.
  - exact example_unit_interval.
Defined.

(** ** How the filters compare *)

Lemma filter_sublist_weaken (p1 p2 : loc -> bool) (xs : list loc) :
  (forall x, x ∈ xs -> p1 x = true -> p2 x = true) ->
  filter (fun x => p1 x = true) xs `sublist_of` filter (fun x => p2 x = true) xs.
Proof.
  induction xs as [|x xs IH]; intros H; [constructor|].
  assert (IH' := IH (fun y Hy => H y (list_elem_of_further _ _ _ Hy))).
  rewrite !filter_cons.
  destruct (decide (p1 x = true)) as [H1|H1].
  - rewrite decide_True by (apply H; [left | exact H1]).
    apply sublist_skip, IH'.
  - destruct (decide (p2 x = true)); [apply sublist_cons|]; exact IH'.
Qed.

Lemma array_of_getNotesFromPastDays w days xs :
  vault_lists w xs ->
  array_of (getNotesFromPastDays days w)
  = Some (filter
            (fun x =>
               created_since w (clock w - days * MILLISECONDS_PER_DAY) x = true)
            xs).
Proof.
  intros Hv. rewrite (getNotesFromPastDays_ret w days xs Hv).
  cbn [array_of arrays with_arrays]. apply lookup_insert_eq.
Qed.

Lemma array_of_getNotesFromDirectory w directoryPath xs :
  vault_lists w xs ->
  array_of (getNotesFromDirectory directoryPath w)
  = Some (filter (fun x => under_directory w directoryPath x = true) xs).
Proof.
  intros Hv. rewrite (getNotesFromDirectory_ret w directoryPath xs Hv).
  cbn [array_of arrays with_arrays]. apply lookup_insert_eq.
Qed.

(** X13: a longer window keeps more: with [days1 <= days2], the notes
    of the last [days1] days are a subsequence of the notes of the
    last [days2] days.  So every candidate of the past-week command is
    one of the past-month command, and every candidate of that is one
    of the past-year command. *)
Theorem longer_window_keeps_more
    (w : World) (xs : list loc) (days1 days2 : Z) :
  vault_lists w xs ->
  days1 <= days2 ->
  exists kept1 kept2,
    array_of (getNotesFromPastDays days1 w) = Some kept1 /\
    array_of (getNotesFromPastDays days2 w) = Some kept2 /\
    kept1 `sublist_of` kept2.
Proof.
  intros Hv Hd. eexists _, _.
  split; [apply array_of_getNotesFromPastDays; exact Hv|].
  split; [apply array_of_getNotesFromPastDays; exact Hv|].
  apply filter_sublist_weaken. intros x _.
  rewrite !created_since_spec. intros (f & Hf & Hc).
  exists f. split; [exact Hf|]. unfold MILLISECONDS_PER_DAY in *. lia.
Qed.

Lemma longer_window_keeps_more_witness :
  exists kept1 kept2,
    array_of (getNotesFromPastWeek example_world) = Some kept1 /\
    array_of (getNotesFromPastMonth example_world) = Some kept2 /\
    kept1 `sublist_of` kept2.
Proof.
  apply (longer_window_keeps_more example_world example_notes WEEK MONTH).
  - exact example_vault.
  - vm_compute. discriminate.
Defined.

(** X14: a longer prefix keeps less: the notes under [p ++ q] are a
    subsequence of the notes under [p]; and the empty prefix, which the
    filter itself does not refuse, keeps the whole vault. *)
Theorem longer_prefix_keeps_less
    (w : World) (xs : list loc) (p q : jsstring) :
  vault_lists w xs ->
  (exists kept1 kept2,
     array_of (getNotesFromDirectory (p ++ q) w) = Some kept1 /\
     array_of (getNotesFromDirectory p w) = Some kept2 /\
     kept1 `sublist_of` kept2) /\
  array_of (getNotesFromDirectory [] w) = Some xs.
Proof.
  intros Hv. split.
  - eexists _, _.
    split; [apply array_of_getNotesFromDirectory; exact Hv|].
    split; [apply array_of_getNotesFromDirectory; exact Hv|].
    apply filter_sublist_weaken. intros x _.
    rewrite !under_directory_spec. intros (f & Hf & rest & Hp).
    exists f. split; [exact Hf|]. exists (q ++ rest).
    rewrite Hp, <- app_assoc. reflexivity.
  - rewrite (array_of_getNotesFromDirectory w [] xs Hv). f_equal.
    destruct Hv as [_ Hf]. clear -Hf.
    induction xs as [|x xs IH]; [reflexivity|].
    rewrite filter_cons.
    destruct (Hf x) as [f Hx]; [left|].
    rewrite decide_True by (unfold under_directory; rewrite Hx; reflexivity).
    f_equal. apply IH. intros y Hy. apply Hf. right. exact Hy.
Qed.

Lemma longer_prefix_keeps_less_witness :
  array_of (getNotesFromDirectory [] example_world) = Some example_notes.
Proof.
  apply (longer_prefix_keeps_less example_world example_notes [] []).
  exact example_vault.
Defined.

(** ** Every note can be picked *)

(** A product that lies in [[i, i + n / 2^53)], for an array length
    [n], is rounded to a Number whose floor is [i]. *)
Lemma floor_of_product (m n i : Z) :
  0 <= i < n -> n < 2 ^ 32 -> 0 <= m < 2 ^ 53 ->
  i * 2 ^ 53 <= m * n < i * 2 ^ 53 + n ->
  Math_floor (float_mul (Float m (-53)) (of_int n)) = i.
Proof.
  intros Hi Hn Hm Hmn. unfold float_mul, of_int. cbn [mant expo].
  change (-53 + 0) with (-53).
  change (2 ^ 32) with 4294967296 in *.
  change (2 ^ 53) with 9007199254740992 in *.
  destruct (Z.eq_dec (m * n) 0) as [H0|H0].
  { rewrite H0. assert (i = 0) by lia. subst i. reflexivity. }
  assert (Hpos : 0 < m * n) by lia.
  unfold round_nearest_even, prec, emin.
  destruct (Z.log2_spec (m * n) Hpos) as [Hlo Hhi].
  assert (Hlog : Z.log2 (m * n) < 85).
  { apply Z.log2_lt_pow2; [exact Hpos|].
    change (2 ^ 85) with (9007199254740992 * 4294967296). nia. }
  pose proof (Z.log2_nonneg (m * n)) as Hlog0.
  set (d := Z.log2 (m * n) + 1) in *.
  replace (Z.succ (Z.log2 (m * n))) with d in Hhi by (unfold d; lia).
  destruct (Z.leb_spec (Z.max (d - 53) (-1074 - -53)) 0) as [Hs|Hs].
  - unfold Math_floor. cbn [mant expo].
    change (0 <=? -53) with false. cbv iota.
    change (2 ^ (- -53)) with 9007199254740992.
    symmetry. apply (Z.div_unique _ _ _ (m * n - i * 9007199254740992)); lia.
  - replace (Z.max (d - 53) (-1074 - -53)) with (d - 53) in * by lia.
    set (s := d - 53) in *.
    assert (Hs32 : 0 < s <= 32) by (unfold s, d in *; lia).
    assert (HS : 0 < 2 ^ s) by (apply Z.pow_pos_nonneg; lia).
    assert (HS32 : 2 ^ s <= 4294967296).
    { change 4294967296 with (2 ^ 32). apply Z.pow_le_mono_r; lia. }
    assert (HU : 0 < 2 ^ (53 - s)) by (apply Z.pow_pos_nonneg; lia).
    assert (Hsplit : 9007199254740992 = 2 ^ (53 - s) * 2 ^ s).
    { rewrite <- Z.pow_add_r by lia.
      replace (53 - s + s) with 53 by lia. reflexivity. }
    pose proof (Z.div_mod (m * n) (2 ^ s) ltac:(lia)) as Hdm.
    pose proof (Z.mod_pos_bound (m * n) (2 ^ s) ltac:(lia)) as Hrb.
    set (q := m * n / 2 ^ s) in *. set (rm := (m * n) mod 2 ^ s) in *.
    assert (Hql : i * 2 ^ (53 - s) <= q) by nia.
    assert (Hqu : q + 1 < (i + 1) * 2 ^ (53 - s)) by nia.
    assert (Hfloor : forall q', q <= q' <= q + 1 ->
              Math_floor (Float q' (-53 + s)) = i).
    { intros q' Hq'. unfold Math_floor. cbn [mant expo].
      destruct (Z.leb_spec 0 (-53 + s)) as [|_]; [lia|].
      replace (- (-53 + s)) with (53 - s) by lia.
      symmetry. apply (Z.div_unique _ _ _ (q' - i * 2 ^ (53 - s))); nia. }
    destruct ((2 ^ (s - 1) <? rm) || ((rm =? 2 ^ (s - 1)) && Z.odd q));
      apply Hfloor; lia.
Qed.

(** The multiple of [2^-53] just at or above [i / n]. *)
Lemma ceiling_bounds (n i : Z) :
  0 <= i < n ->
  let m := (i * 2 ^ 53 + n - 1) / n in
  i * 2 ^ 53 <= m * n < i * 2 ^ 53 + n.
Proof.
  intros Hi m.
  pose proof (Z.div_mod (i * 2 ^ 53 + n - 1) n ltac:(lia)) as Hdm.
  pose proof (Z.mod_pos_bound (i * 2 ^ 53 + n - 1) n ltac:(lia)) as Hrb.
  fold m in Hdm. lia.
Qed.

(** X15: no note is out of reach of the pick.  For an array within the
    length limit of JavaScript and any index [i] of it, there is a
    Number in [0, 1) on which [getRandomNote] returns the note at
    [i]. *)
Theorem every_note_can_be_picked (xs : list loc) (i : nat) (file : loc) :
  xs !! i = Some file ->
  Z.of_nat (length xs) < 2 ^ 32 ->
  exists r,
    unit_interval r /\
    forall w notes,
      arrays w !! notes = Some xs ->
      random_source w (random_calls w) = r ->
      getRandomNote notes w
      = (Ret (Note file), with_random_calls (S (random_calls w)) w).
Proof.
  intros Hi Hlen.
  pose proof (lookup_lt_Some _ _ _ Hi) as Hlt.
  set (n := Z.of_nat (length xs)) in *.
  assert (Hin : 0 <= Z.of_nat i < n) by (unfold n; lia).
  pose proof (ceiling_bounds n (Z.of_nat i) Hin) as Hm. cbv zeta in Hm.
  set (m := (Z.of_nat i * 2 ^ 53 + n - 1) / n) in *.
  change (2 ^ 32) with 4294967296 in *.
  change (2 ^ 53) with 9007199254740992 in *.
  assert (Hm53 : 0 <= m < 9007199254740992) by nia.
  exists (Float m (-53)). split.
  - unfold unit_interval, is_binary64, below_one, prec, emin, emax.
    cbn [mant expo]. change (2 ^ 53) with 9007199254740992.
    change (2 ^ (- -53)) with 9007199254740992. lia.
  - intros w notes Ha Hr.
    assert (Hne : xs <> []) by (intros ->; discriminate Hi).
    rewrite (getRandomNote_nonempty w notes xs Ha Hne). cbv zeta.
    rewrite Hr. fold n.
    rewrite (floor_of_product m n (Z.of_nat i)) by
      (change (2 ^ 32) with 4294967296;
       change (2 ^ 53) with 9007199254740992; lia).
    destruct (Z.ltb_spec (Z.of_nat i) 0) as [|_]; [lia|].
    rewrite Nat2Z.id, Hi. reflexivity.
Qed.

Lemma every_note_can_be_picked_witness :
  exists r,
    unit_interval r /\
    forall w notes,
      arrays w !! notes = Some example_notes ->
      random_source w (random_calls w) = r ->
      getRandomNote notes w
      = (Ret (Note 3%positive), with_random_calls (S (random_calls w)) w).
Proof.
  apply (every_note_can_be_picked example_notes 2 3%positive).
  - reflexivity.
  - reflexivity.
Defined.

(** ** The directories of the vault *)

Lemma split_cons_slash (s : jsstring) :
  split (slash :: s) slash = [] :: split s slash.
Proof. reflexivity. Qed.

Lemma split_nonempty (s : jsstring) (sep : N) :
  exists part parts, split s sep = part :: parts.
Proof.
  induction s as [|c s (part & parts & IH)]; cbn [split]; [eauto|].
  destruct (c =? sep)%N; [eauto|]. rewrite IH. eauto.
Qed.

Lemma split_cons_other (c : N) (s : jsstring) (sep : N) part parts :
  c <> sep -> split s sep = part :: parts ->
  split (c :: s) sep = (c :: part) :: parts.
Proof.
  intros Hc Hs. cbn [split]. rewrite Hs.
  destruct (N.eqb_spec c sep); [contradiction | reflexivity].
Qed.

Lemma join_two (a b : jsstring) (parts : list jsstring) (sep : jsstring) :
  join (a :: b :: parts) sep = a ++ sep ++ join (b :: parts) sep.
Proof. reflexivity. Qed.

Lemma join_head (c : N) (a : jsstring) (parts : list jsstring) sep :
  join ((c :: a) :: parts) sep = c :: join (a :: parts) sep.
Proof. destruct parts; reflexivity. Qed.

(** The prefixes that the loop of [getAllDirectories] forms from a
    path are its directories. *)
Lemma prefixes_are_directories (path d : jsstring) :
  (exists i, (1 <= i < length (split path slash))%nat /\
             d = join (take i (split path slash)) [slash])
  <-> directory_of d path.
Proof.
  unfold directory_of. revert d.
  induction path as [|c path IH]; intros d.
  - cbn [split length]. split.
    + intros (i & Hi & _). lia.
    + intros [rest H]. destruct d; discriminate H.
  - destruct (N.eqb_spec c slash) as [->|Hc].
    + rewrite split_cons_slash.
      destruct (split_nonempty path slash) as (part & parts & Hs).
      split.
      * intros (i & Hi & ->). cbn [length] in Hi.
        destruct i as [|[|j]]; [lia| |].
        -- exists path. reflexivity.
        -- destruct (proj1 (IH (join (take (S j) (split path slash)) [slash])))
             as [rest Hrest].
           { exists (S j). split; [lia | reflexivity]. }
           exists rest. rewrite Hs in *. cbn [take]. rewrite join_two.
           cbn [app take] in *. rewrite Hrest at 1. reflexivity.
      * intros [rest H]. destruct d as [|c' d].
        -- exists 1%nat. cbn [length]. rewrite Hs. cbn [length take join].
           split; [lia | reflexivity].
        -- injection H as <- H.
           destruct (proj2 (IH d)) as (i & Hi & Hd); [eauto|].
           exists (S i). cbn [length]. split; [lia|].
           destruct i as [|j]; [lia|]. rewrite Hs in *. cbn [take].
           rewrite join_two. cbn [app take] in *. rewrite <- Hd. reflexivity.
    + destruct (split_nonempty path slash) as (part & parts & Hs).
      rewrite (split_cons_other c path slash part parts Hc Hs).
      split.
      * intros (i & Hi & ->). cbn [length] in Hi.
        destruct i as [|j]; [lia|]. cbn [take]. rewrite join_head.
        destruct (proj1 (IH (join (take (S j) (split path slash)) [slash])))
          as [rest Hrest].
        { exists (S j). rewrite Hs. cbn [length]. split; [lia | reflexivity]. }
        exists rest. rewrite Hs in Hrest. cbn [take] in Hrest.
        cbn [app]. rewrite <- Hrest. reflexivity.
      * intros [rest H]. destruct d as [|c' d].
        -- injection H as H _. contradiction.
        -- injection H as <- H.
           destruct (proj2 (IH d)) as (i & Hi & Hd); [eauto|].
           exists i. rewrite Hs in Hi, Hd. cbn [length] in *.
           split; [lia|].
           destruct i as [|j]; [lia|]. cbn [take] in *.
           rewrite join_head, <- Hd. reflexivity.
Qed.

Lemma includes_elem_of (s : jsstring) (c : N) :
  includes s c = true <-> c ∈ s.
Proof.
  unfold includes. rewrite existsb_exists. split.
  - intros (x & Hx & Heq). apply N.eqb_eq in Heq. subst x.
    apply list_elem_of_In. exact Hx.
  - intros Hc. exists c. split; [apply list_elem_of_In; exact Hc|].
    apply N.eqb_refl.
Qed.

Lemma directory_of_includes (d path : jsstring) :
  directory_of d path -> includes path slash = true.
Proof.
  intros [rest ->]. apply includes_elem_of.
  apply elem_of_app. right. left.
Qed.

Lemma Set_add_elem_of (x y : jsstring) (set : list jsstring) :
  y ∈ Set_add x set <-> y ∈ set \/ y = x.
Proof.
  unfold Set_add. case_bool_decide as Hx.
  - split; [auto|]. intros [| ->]; assumption.
  - rewrite elem_of_app, list_elem_of_singleton. reflexivity.
Qed.

Lemma Set_add_NoDup (x : jsstring) (set : list jsstring) :
  NoDup set -> NoDup (Set_add x set).
Proof.
  intros Hset. unfold Set_add. case_bool_decide as Hx; [exact Hset|].
  apply NoDup_app. split; [exact Hset|]. split.
  - intros y Hy Hyx. apply list_elem_of_singleton in Hyx. subst y. auto.
  - apply NoDup_singleton.
Qed.

(** The loop over the indices [l] of the parts of one path. *)
Lemma add_prefixes_elem_of (parts : list jsstring) (l : list nat)
    (folders : list jsstring) (d : jsstring) :
  d ∈ foldl
        (fun folders i =>
           let dirPath := join (take i parts) [slash] in
           if truthy dirPath then Set_add dirPath folders else folders)
        folders l
  <-> d ∈ folders \/
      (d <> [] /\ exists i, i ∈ l /\ d = join (take i parts) [slash]).
Proof.
  revert folders. induction l as [|i l IH]; intros folders; cbn [foldl].
  - split; [auto|]. intros [H|(_ & i & Hi & _)]; [exact H|].
    apply elem_of_nil in Hi. destruct Hi.
  - rewrite IH. cbv zeta.
    destruct (truthy (join (take i parts) [slash])) eqn:Ht.
    + apply truthy_nonempty in Ht. rewrite Set_add_elem_of. split.
      * intros [[H| ->]|(Hd & j & Hj & Hdj)]; [auto| |].
        -- right. split; [exact Ht|]. exists i. split; [left | reflexivity].
        -- right. split; [exact Hd|]. exists j. split; [right|]; assumption.
      * intros [H|(Hd & j & Hj & Hdj)]; [auto|].
        apply elem_of_cons in Hj as [->|Hj]; [auto|].
        right. split; [exact Hd|]. exists j. auto.
    + assert (Hnil : join (take i parts) [slash] = []).
      { destruct (join (take i parts) [slash]); [reflexivity | discriminate]. }
      split.
      * intros [H|(Hd & j & Hj & Hdj)]; [auto|].
        right. split; [exact Hd|]. exists j. split; [right|]; assumption.
      * intros [H|(Hd & j & Hj & Hdj)]; [auto|].
        apply elem_of_cons in Hj as [->|Hj]; [congruence|].
        right. split; [exact Hd|]. exists j. auto.
Qed.

Lemma add_prefixes_NoDup (parts : list jsstring) (l : list nat)
    (folders : list jsstring) :
  NoDup folders ->
  NoDup (foldl
           (fun folders i =>
              let dirPath := join (take i parts) [slash] in
              if truthy dirPath then Set_add dirPath folders else folders)
           folders l).
Proof.
  revert folders. induction l as [|i l IH]; intros folders Hf; cbn [foldl];
    [exact Hf|].
  apply IH. cbv zeta. destruct (truthy _); [apply Set_add_NoDup|]; exact Hf.
Qed.

Lemma add_directories_elem_of (folders : list jsstring) (path d : jsstring) :
  d ∈ add_directories folders path
  <-> d ∈ folders \/ (d <> [] /\ directory_of d path).
Proof.
  unfold add_directories. destruct (includes path slash) eqn:Hinc.
  - cbv zeta. rewrite add_prefixes_elem_of.
    rewrite <- prefixes_are_directories.
    split; (intros [H|(Hd & i & Hi & Hdi)]; [auto|]);
      right; (split; [exact Hd|]); exists i; (split; [|exact Hdi]).
    + apply elem_of_seq in Hi. lia.
    + apply elem_of_seq. lia.
  - split; [auto|]. intros [H|(_ & Hd)]; [exact H|].
    apply directory_of_includes in Hd. congruence.
Qed.

Lemma add_directories_NoDup (folders : list jsstring) (path : jsstring) :
  NoDup folders -> NoDup (add_directories folders path).
Proof.
  intros Hf. unfold add_directories. destruct (includes path slash);
    [apply add_prefixes_NoDup|]; exact Hf.
Qed.

Lemma folders_elem_of (loaded folders : list jsstring) (d : jsstring) :
  d ∈ foldl add_directories folders loaded
  <-> d ∈ folders \/
      (d <> [] /\ exists path, path ∈ loaded /\ directory_of d path).
Proof.
  revert folders. induction loaded as [|p loaded IH]; intros folders;
    cbn [foldl].
  - split; [auto|]. intros [H|(_ & p & Hp & _)]; [exact H|].
    apply elem_of_nil in Hp. destruct Hp.
  - rewrite IH, add_directories_elem_of. split.
    + intros [[H|(Hd & Hp)]|(Hd & q & Hq & Hdq)]; [auto| |].
      * right. split; [exact Hd|]. exists p. split; [left | exact Hp].
      * right. split; [exact Hd|]. exists q. split; [right|]; assumption.
    + intros [H|(Hd & q & Hq & Hdq)]; [auto|].
      apply elem_of_cons in Hq as [->|Hq]; [auto|].
      right. split; [exact Hd|]. exists q. auto.
Qed.

Lemma folders_NoDup (loaded folders : list jsstring) :
  NoDup folders -> NoDup (foldl add_directories folders loaded).
Proof.
  revert folders. induction loaded as [|p loaded IH]; intros folders Hf;
    cbn [foldl]; [exact Hf|].
  apply IH, add_directories_NoDup, Hf.
Qed.

(** *** The order of strings *)

Lemma string_lt_irrefl (s : jsstring) : string_lt s s = false.
Proof.
  induction s as [|c s IH]; [reflexivity|]. cbn [string_lt].
  rewrite N.ltb_irrefl, N.eqb_refl, IH. reflexivity.
Qed.

Lemma string_lt_trans (s t u : jsstring) :
  string_lt s t = true -> string_lt t u = true -> string_lt s u = true.
Proof.
  revert t u. induction s as [|a s IH]; intros [|b t] [|c u];
    cbn [string_lt]; try discriminate; try reflexivity.
  rewrite !orb_true_iff, !andb_true_iff, !N.ltb_lt, !N.eqb_eq.
  intros [H1|[-> H1]] [H2|[-> H2]]; [left; lia | left; lia | left; lia |].
  right. split; [reflexivity|]. eapply IH; eassumption.
Qed.

Lemma string_lt_total (s t : jsstring) :
  string_lt s t = true \/ s = t \/ string_lt t s = true.
Proof.
  revert t. induction s as [|a s IH]; intros [|b t]; cbn [string_lt]; auto.
  rewrite !orb_true_iff, !andb_true_iff, !N.ltb_lt, !N.eqb_eq.
  destruct (N.lt_trichotomy a b) as [H|[->|H]]; [auto| |auto].
  destruct (IH t) as [H|[->|H]]; auto.
Qed.

Lemma insert_sorted_elem_of (x y : jsstring) (l : list jsstring) :
  y ∈ insert_sorted x l <-> y = x \/ y ∈ l.
Proof.
  induction l as [|z l IH]; cbn [insert_sorted].
  - rewrite list_elem_of_singleton. split; [auto|].
    intros [H|H]; [exact H|]. apply elem_of_nil in H. destruct H.
  - destruct (string_lt z x).
    + rewrite !elem_of_cons, IH. tauto.
    + rewrite elem_of_cons. reflexivity.
Qed.

Lemma insert_sorted_sorted (x : jsstring) (l : list jsstring) :
  x ∉ l ->
  StronglySorted (fun a b => string_lt a b = true) l ->
  StronglySorted (fun a b => string_lt a b = true) (insert_sorted x l).
Proof.
  intros Hx Hl. induction Hl as [|z l Hl IH Hz]; cbn [insert_sorted].
  - repeat constructor.
  - assert (Hxz : x <> z) by (intros ->; apply Hx; left).
    assert (Hxl : x ∉ l) by (intros H; apply Hx; right; exact H).
    destruct (string_lt z x) eqn:Hzx.
    + constructor; [apply IH, Hxl|].
      apply Forall_forall. intros y Hy.
      apply insert_sorted_elem_of in Hy as [->|Hy]; [exact Hzx|].
      rewrite Forall_forall in Hz. apply Hz, Hy.
    + assert (Hlt : string_lt x z = true).
      { destruct (string_lt_total x z) as [H|[H|H]];
          [exact H | contradiction | congruence]. }
      constructor; [constructor; assumption|].
      constructor; [exact Hlt|].
      rewrite Forall_forall in Hz |- *. intros y Hy.
      eapply string_lt_trans; [exact Hlt | apply Hz, Hy].
Qed.

Lemma Array_sort_elem_of (l : list jsstring) (y : jsstring) :
  y ∈ Array_sort l <-> y ∈ l.
Proof.
  unfold Array_sort. induction l as [|x l IH]; cbn [foldr]; [reflexivity|].
  rewrite insert_sorted_elem_of, IH, elem_of_cons. reflexivity.
Qed.

Lemma Array_sort_sorted (l : list jsstring) :
  NoDup l ->
  StronglySorted (fun a b => string_lt a b = true) (Array_sort l).
Proof.
  unfold Array_sort. induction 1 as [|x l Hx Hl IH]; cbn [foldr].
  - constructor.
  - apply insert_sorted_sorted; [|exact IH].
    intros H. apply Hx. apply (Array_sort_elem_of l x). exact H.
Qed.

Lemma getAllDirectories_exact_aux (loaded : list jsstring) (d : jsstring) :
  d ∈ getAllDirectories loaded
  <-> d <> [] /\ exists path, path ∈ loaded /\ directory_of d path.
Proof.
  unfold getAllDirectories. rewrite Array_sort_elem_of, folders_elem_of.
  split; [|auto]. intros [H|H]; [|exact H].
  apply elem_of_nil in H. destruct H.
Qed.

(** X16: [getAllDirectories] returns exactly the non-empty strings
    that some loaded path continues with a "/": every ancestor
    directory of every loaded file, and nothing else. *)
Theorem getAllDirectories_exact (loaded : list jsstring) (d : jsstring) :
  d ∈ getAllDirectories loaded
  <-> d <> [] /\ exists path, path ∈ loaded /\ directory_of d path.
Proof. apply getAllDirectories_exact_aux. Qed.

(** X17: [getAllDirectories] returns its directories in strictly
    ascending order of code units, so each one once; and the list is
    the same in whatever order the host lists the files. *)
Theorem getAllDirectories_sorted (loaded : list jsstring) :
  StronglySorted (fun a b => string_lt a b = true) (getAllDirectories loaded) /\
  NoDup (getAllDirectories loaded) /\
  forall loaded',
    loaded ≡ₚ loaded' -> getAllDirectories loaded' = getAllDirectories loaded.
Proof.
  assert (Hsorted : forall l,
    StronglySorted (fun a b => string_lt a b = true) (getAllDirectories l)).
  { intros l. apply Array_sort_sorted, folders_NoDup, NoDup_nil_2. }
  assert (Hnodup : forall l, NoDup (getAllDirectories l)).
  { intros l. specialize (Hsorted l).
    induction Hsorted as [|x k Hk IH Hx]; [apply NoDup_nil_2|].
    apply NoDup_cons. split; [|exact IH].
    intros Hin. rewrite Forall_forall in Hx. specialize (Hx x Hin).
    rewrite string_lt_irrefl in Hx. discriminate Hx. }
  split; [apply Hsorted|]. split; [apply Hnodup|].
  intros loaded' Hperm.
  apply (StronglySorted_unique_strong (fun a b => string_lt a b = true)).
  - intros x1 x2 _ _ H12 H21.
    pose proof (string_lt_trans _ _ _ H12 H21) as H.
    rewrite string_lt_irrefl in H. discriminate H.
  - apply Hsorted.
  - apply Hsorted.
  - apply NoDup_Permutation; [apply Hnodup..|].
    intros d. rewrite !getAllDirectories_exact_aux.
    split; intros (Hd & p & Hp & Hdp); (split; [exact Hd|]); exists p;
      (split; [|exact Hdp]); [rewrite Hperm | rewrite <- Hperm]; exact Hp.
Qed.

Example directories_of_example :
  getAllDirectories
    [lit "a/b/c.md"; lit "z.md"; lit "a/x.md"; lit "B/y.md"; lit "/r.md"]
  = [lit "B"; lit "a"; lit "a/b"].
Proof. vm_compute. reflexivity. Qed.

(** ** The settings tab and the registry *)

Lemma shown_commands_eq w loaded :
  shown_commands w loaded
  = map cmd_name builtInCommands
    ++ flat_map
         (fun num =>
            if truthy (trim (customDirectory num (settings w)))
            then [lit "Random note from " ++ customDirectory num (settings w)]
            else [])
         all_slots.
Proof.
  unfold shown_commands, display. erewrite bind_ret by reflexivity.
  cbv zeta. cbn [fst mret M_mret M_ret listed_items flat_map app].
  repeat match goal with
         | |- context [bool_decide (?a = ?b)] =>
             first [ rewrite (bool_decide_eq_true_2 (a = b)) by reflexivity
                   | rewrite (bool_decide_eq_false_2 (a = b)) by discriminate ]
         end.
  unfold all_slots, builtInCommands. cbn [map flat_map app cmd_name].
  rewrite !app_nil_r.
  destruct (truthy (trim (customDirectory Slot1 (settings w))));
    destruct (truthy (trim (customDirectory Slot2 (settings w))));
    destruct (truthy (trim (customDirectory Slot3 (settings w))));
    reflexivity.
Qed.

(** X18: while the registry agrees with the settings, the list of
    commands on the settings tab shows exactly the plugin's registered
    commands, each by the name it was registered with, which the
    registry holds behind the plugin's name and ": ".  The four
    built-in names that [display] spells out are the names that
    [onload] registers, and a custom-directory name is listed exactly
    when its command is registered. *)
Theorem settings_tab_lists_registered
    (w : World) (loaded : list jsstring) (text : jsstring) :
  in_sync w ->
  text ∈ shown_commands w loaded
  <-> exists c,
        plugin_command w c /\
        cmd_name c = manifest_name w ++ lit ": " ++ text.
Proof.
  intros [Hb Hc]. rewrite shown_commands_eq, elem_of_app.
  rewrite list_elem_of_fmap, list_elem_of_In, in_flat_map.
  unfold plugin_command. split.
  - intros [(b & -> & Hin)|(num & _ & Hnum)].
    + exists (builtin_command w b). split; [|reflexivity].
      left. exists b. split; [exact Hin | apply Hb, Hin].
    + specialize (Hc num).
      destruct (truthy (trim (customDirectory num (settings w))));
        [|destruct Hnum].
      destruct Hnum as [<-|[]].
      exists (custom_command w num). split; [|reflexivity].
      right. exists num. exact Hc.
  - intros (c & [(b & Hin & Hlook)|(num & Hlook)] & Hname).
    + left. exists b. split; [|exact Hin].
      rewrite (Hb b Hin) in Hlook. injection Hlook as <-.
      cbn [cmd_name builtin_command] in Hname.
      apply app_inv_head in Hname. apply app_inv_head in Hname.
      symmetry. exact Hname.
    + right. exists num. split.
      * apply list_elem_of_In. destruct num; unfold all_slots; set_solver.
      * rewrite (Hc num) in Hlook.
        destruct (truthy (trim (customDirectory num (settings w))));
          [|discriminate Hlook].
        injection Hlook as <-.
        cbn [cmd_name custom_command] in Hname.
        apply app_inv_head in Hname. apply app_inv_head in Hname.
        left. exact Hname.
Qed.


Lemma updated_in_sync w :
  (forall c,
     c ∈ builtInCommands ->
     commands w !! builtin_command_id w c = Some (builtin_command w c)) ->
  in_sync (with_commands (updated_commands w) w).
Proof.
  intros Hb. split.
  - intros c Hc. cbn [commands with_commands].
    change (builtin_command_id (with_commands (updated_commands w) w) c)
      with (builtin_command_id w c).
    rewrite updated_commands_other
      by (intros num; apply builtin_id_not_custom; exact Hc).
    apply Hb, Hc.
  - intros num. cbn [commands with_commands].
    apply (updated_commands_custom w num).
Qed.

Lemma onload_in_sync w (data : option StoredData) :
  in_sync (snd (onload (LoadResolved data) w)).
Proof.
  rewrite onload_run. cbv zeta. cbn [snd].
  apply updated_in_sync. intros c Hc. apply (builtins_registered w), Hc.
Qed.


Lemma example_loaded_in_sync : in_sync example_world_loaded.
Proof. apply onload_in_sync. Qed.

Lemma settings_tab_lists_registered_witness :
  lit "Random note from vault" ∈ shown_commands example_world_loaded []
  <-> exists c,
        plugin_command example_world_loaded c /\
        cmd_name c
        = manifest_name example_world_loaded ++ lit ": " ++
          lit "Random note from vault".
Proof.
  apply (settings_tab_lists_registered example_world_loaded []).
  exact example_loaded_in_sync.
Defined.


Lemma customDirectory_set_other num k value s :
  k <> num ->
  customDirectory k (set_customDirectory num value s) = customDirectory k s.
Proof. destruct num, k; intros H; first [reflexivity | contradiction]. Qed.

(** X20: while the registry agrees with the settings, a saved change of
    the directory of one slot leaves the directories and the commands
    of the other two slots as they were. *)
Theorem onChange_leaves_other_slots
    (w : World) (num k : slot) (value : jsstring) :
  in_sync w ->
  saveData_rejects w = false ->
  k <> num ->
  customDirectory k (settings (snd (onChange num value w)))
    = customDirectory k (settings w) /\
  commands (snd (onChange num value w)) !! custom_command_id w k
    = commands w !! custom_command_id w k.
Proof.
  intros [_ Hc] Hsave Hk. rewrite onChange_run, Hsave. cbv zeta.
  cbn [snd settings commands with_commands with_events with_settings].
  split; [apply customDirectory_set_other, Hk|].
  rewrite (Hc k). set (w2 := with_events _ _).
  change (custom_command_id w k) with (custom_command_id w2 k).
  rewrite (updated_commands_custom w2 k).
  unfold custom_command, custom_command_id, w2.
  cbn [settings with_events with_settings].
  rewrite (customDirectory_set_other num k value _ Hk). reflexivity.
Qed.

Lemma onChange_leaves_other_slots_witness :
  customDirectory Slot2
      (settings (snd (onChange Slot1 (lit "A") example_world_loaded)))
    = customDirectory Slot2 (settings example_world_loaded) /\
  commands (snd (onChange Slot1 (lit "A") example_world_loaded))
      !! custom_command_id example_world_loaded Slot2
    = commands example_world_loaded
      !! custom_command_id example_world_loaded Slot2.
Proof.
  apply (onChange_leaves_other_slots example_world_loaded Slot1 Slot2 (lit "A")).
  - exact example_loaded_in_sync.
  - reflexivity.
  - discriminate.
Defined.

(** X21: what is saved is what a later load restores.  Loading the
    data that the host kept of the settings [s] gives the settings
    [s] again, none of them replaced by a default, and registers the
    commands of exactly the slots that [s] configures. *)
Theorem onload_restores_saved (w : World) (s : ObsiRandomSettings) :
  settings (snd (onload (Some (as_stored s)) w)) = s /\
  forall num,
    registered (snd (onload (Some (as_stored s)) w)) num
    <-> trim (customDirectory num s) <> [].
Proof.
  assert (Hs : settings (snd (onload (Some (as_stored s)) w)) = s).
  { rewrite onload_run. cbv zeta.
    cbn [snd settings with_commands with_settings Object_assign as_stored
         saved1 saved2 saved3 default]. destruct s; reflexivity. }
  split; [exact Hs|]. intros num.
  destruct (onload_in_sync w (Some (as_stored s))) as [_ Hc].
  unfold registered. rewrite (Hc num), Hs, <- truthy_nonempty.
  destruct (truthy (trim (customDirectory num s))).
  - split; [reflexivity | eauto].
  - split; [intros [c H]; discriminate H | discriminate].
Qed.

Lemma onload_registers_witness :
  exists w',
    onload (LoadResolved None) example_world = (Ret tt, w') /\
    settings w' = DEFAULT_SETTINGS.
Proof.
  destruct (proj2 (onload_registers example_world) None)
    as (w' & Hrun & Hs & _).
  exists w'. split; [exact Hrun | exact Hs].
Defined.

Lemma getAllDirectories_sorted_witness :
  getAllDirectories [lit "b/y.md"; lit "a/x.md"]
  = getAllDirectories [lit "a/x.md"; lit "b/y.md"].
Proof.
  apply (getAllDirectories_sorted [lit "a/x.md"; lit "b/y.md"]).
  apply Permutation_swap.
Defined.

(** ** The windows of the commands, in the arithmetic of the code *)

(** X22: for the windows of 7, 30 and 365 days, and every clock within
    the range of time values (at most 8.64e15 ms from the epoch), the
    Number arithmetic of the code computes the cutoff exactly: the
    filter with the binary64 cutoff is the filter with the exact
    one. *)
Theorem recency_cutoffs_are_exact (w : World) :
  Z.abs (clock w) <= 8640000000000000 ->
  getNotesFromPastDays_binary64 WEEK w = getNotesFromPastWeek w /\
  getNotesFromPastDays_binary64 MONTH w = getNotesFromPastMonth w /\
  getNotesFromPastDays_binary64 YEAR w = getNotesFromPastYear w.
Proof.
  intros Hc. change (2 ^ 53) with 9007199254740992 in *.
  unfold getNotesFromPastWeek, getNotesFromPastMonth, getNotesFromPastYear.
  split; [|split]; apply getNotesFromPastDays_binary64_exact;
    unfold WEEK, MONTH, YEAR; change (2 ^ 53) with 9007199254740992; lia.
Qed.

Lemma recency_cutoffs_are_exact_witness :
  getNotesFromPastDays_binary64 WEEK example_world
    = getNotesFromPastWeek example_world /\
  getNotesFromPastDays_binary64 MONTH example_world
    = getNotesFromPastMonth example_world /\
  getNotesFromPastDays_binary64 YEAR example_world
    = getNotesFromPastYear example_world.
Proof.
  apply (recency_cutoffs_are_exact example_world).
  vm_compute. discriminate.
Defined.
